(** * ndb/context.py: AutoBatcher and Context

    A shallow embedding of [src/ndb/context.py].  Python objects live in a
    [World] and are named by references; every method of the source becomes
    a computation in the monad [M], which threads the world, propagates
    Python exceptions and talks to its collaborators (the task scheduler,
    the connection, user callbacks) through an environment.  The
    environment is universally quantified in the theorems: whatever the
    scheduler interleaves while a task is suspended at a [yield] is a move
    of the environment. *)

From stdpp Require Import gmap strings list fin_maps.
From Stdlib Require Import ZArith Lia.

Abbreviation ref := nat.

(** ** Data model *)

(** model.Key: an application id and a path of (kind, id or name) pairs. *)
Record Key := mkKey {
  app : string;
  pairs : list (string * (Z + string))
}.

#[global] Instance Key_eq_dec : EqDecision Key.
Proof. solve_decision. Defined.

#[global] Instance Key_countable : Countable Key.
Proof.
  apply (inj_countable' (fun k => (app k, pairs k)) (fun p => mkKey p.1 p.2)).
  by intros [].
Defined.

(** Python values that flow through futures, RPC results and callbacks.
    Entities, futures and RPC handles are objects: a value holds their
    identity, the object itself lives in the [World]. *)
Inductive value :=
| VNone
| VBool (b : bool)
| VInt (n : Z)
| VStr (s : string)
| VKey (k : Key)
| VEntity (e : ref)
| VFuture (f : ref)
| VRpc (r : ref)
| VContext (c : ref)
| VBatch (results : list ref)
| VPair (lo hi : Z).

#[global] Instance value_eq_dec : EqDecision value.
Proof. solve_decision. Defined.

Definition value_encode (v : value)
    : unit + bool + Z + string + Key + nat + nat + nat + nat + list nat + Z * Z :=
  match v with
  | VNone => inl (inl (inl (inl (inl (inl (inl (inl (inl (inl ())))))))))
  | VBool b => inl (inl (inl (inl (inl (inl (inl (inl (inl (inr b)))))))))
  | VInt n => inl (inl (inl (inl (inl (inl (inl (inl (inr n))))))))
  | VStr s => inl (inl (inl (inl (inl (inl (inl (inr s)))))))
  | VKey k => inl (inl (inl (inl (inl (inl (inr k))))))
  | VEntity e => inl (inl (inl (inl (inl (inr e)))))
  | VFuture f => inl (inl (inl (inl (inr f))))
  | VRpc r => inl (inl (inl (inr r)))
  | VContext c => inl (inl (inr c))
  | VBatch rs => inl (inr rs)
  | VPair lo hi => inr (lo, hi)
  end.

Definition value_decode
    (x : unit + bool + Z + string + Key + nat + nat + nat + nat + list nat + Z * Z)
    : value :=
  match x with
  | inl (inl (inl (inl (inl (inl (inl (inl (inl (inl _))))))))) => VNone
  | inl (inl (inl (inl (inl (inl (inl (inl (inl (inr b))))))))) => VBool b
  | inl (inl (inl (inl (inl (inl (inl (inl (inr n)))))))) => VInt n
  | inl (inl (inl (inl (inl (inl (inl (inr s))))))) => VStr s
  | inl (inl (inl (inl (inl (inl (inr k)))))) => VKey k
  | inl (inl (inl (inl (inl (inr e))))) => VEntity e
  | inl (inl (inl (inl (inr f)))) => VFuture f
  | inl (inl (inl (inr r))) => VRpc r
  | inl (inl (inr c)) => VContext c
  | inl (inr rs) => VBatch rs
  | inr (lo, hi) => VPair lo hi
  end.

(** Values serve as dictionary keys (the cache is a dict); they are
    compared by structure. *)
#[global] Instance value_countable : Countable value.
Proof.
  apply (inj_countable' value_encode value_decode). by intros [].
Defined.

(** Truth value of an object, as tested by [if ok:] and [and name]. *)
Definition truthy (v : value) : bool :=
  match v with
  | VNone => false
  | VBool b => b
  | VInt n => negb (n =? 0)%Z
  | VStr s => negb (String.eqb s "")
  | _ => true
  end.

(** The exceptions (all subclasses of Exception) the module raises or
    lets through; [Failure] stands for any exception of a collaborator. *)
Inductive exn :=
| AssertionError
| AttributeError
| KeyError
| TypeError
| TransactionFailedError (msg : string)
| Failure (tag : string).

#[global] Instance exn_eq_dec : EqDecision exn.
Proof. solve_decision. Defined.

(** What a [yield] or a call hands back: a value, or an exception thrown
    into the caller. *)
Inductive outcome := Val (v : value) | Exn (e : exn).

(** Modelled from the spec: tasks.Future (ndb/tasks.py is not under src/).
    "states {pending, resolved(value), failed(error)}; resolved exactly
    once". *)
Inductive fstate := Pending | Resolved (v : value) | Failed (e : exn).

#[global] Instance fstate_eq_dec : EqDecision fstate.
Proof. solve_decision. Defined.

(** A model instance: the attribute [key] (None until one is assigned),
    the kind of its class and the property values. *)
Record Entity := mkEntity {
  ent_key : value;
  ent_kind : string;
  ent_props : list (string * value)
}.

#[global] Instance Entity_eq_dec : EqDecision Entity.
Proof. solve_decision. Defined.

(** datastore_rpc connections.  A TransactionalConnection is built from
    the adapter and config of an existing connection, a transaction handle
    and an optional entity group. *)
Inductive Connection :=
| Conn (id : nat)
| TransactionalConnection (base : Connection) (transaction : value)
    (entity_group : option Key).

#[global] Instance Connection_eq_dec : EqDecision Connection.
Proof. solve_decision. Defined.

(** The three batched connection methods an AutoBatcher can be bound to. *)
Inductive batch_method := async_get | async_put | async_delete.

#[global] Instance batch_method_eq_dec : EqDecision batch_method.
Proof. solve_decision. Defined.

(** Calls made on a connection; each returns an RPC handle at once. *)
Inductive rpc_call :=
| call_batch (c : Connection) (m : batch_method) (options : option nat)
    (args : list value)
| call_allocate_ids (c : Connection) (k : value) (size max : option Z)
| call_begin_transaction (c : Connection) (app_id : value)
| call_commit (c : Connection)
| call_rollback (c : Connection).

(** What [rpc.get_result()] does once the RPC has completed: it returns
    an object (None, some other single object, or a list) or raises. *)
Inductive result_obj :=
| obj (v : value)
| obj_list (vs : list value).

#[global] Instance result_obj_eq_dec : EqDecision result_obj.
Proof. solve_decision. Defined.

Inductive rpc_result :=
| returns (r : result_obj)
| raises (e : exn).

(** class AutoBatcher: the attributes set by __init__. *)
Record AutoBatcher := mkAutoBatcher {
  _todo : list (ref * value);
  _running : gset nat;
  _method : Connection * batch_method;
  _options : option nat
}.

(** class Context: the attributes set by __init__.  The batchers are
    objects of their own, so the context holds their references. *)
Record Context := mkContext {
  _conn : Connection;
  _get_batcher : ref;
  _put_batcher : ref;
  _delete_batcher : ref;
  _cache : gmap value value;
  _cache_policy : option (value -> value -> bool)
}.

(** Modelled from the spec: the event loop (ndb/eventloop.py is not under
    src/).  [queue_task(delay, callback)] appends a callback;
    [queue_rpc(rpc, callback, *args)] registers an RPC-completion callback.
    The only callbacks this module registers are the bound methods
    [self._callback] and [self._rpc_callback] of a batcher. *)
Inductive loop_callback := bound_callback (self : ref).

#[global] Instance loop_callback_eq_dec : EqDecision loop_callback.
Proof. solve_decision. Defined.

Record rpc_entry := mkRpcEntry {
  q_rpc : value;
  q_self : ref;
  q_todo : list (ref * value);
  q_running : ref
}.

(** Records written with logging.info. *)
Inductive log_record :=
| log_batch (m : batch_method) (n : nat)
| log_replacing_key (old new : value)
| log_conflict_deleted (k : value)
| log_conflict_modified (k : value).

(** The object store. *)
Record World := mkWorld {
  next_id : nat;
  futures : gmap nat fstate;
  batchers : gmap nat AutoBatcher;
  contexts : gmap nat Context;
  entities : gmap nat Entity;
  ev_queue : list (Z * loop_callback);
  ev_rpcs : list rpc_entry;
  app_id : string
}.

Definition set_next_id (n : nat) (w : World) : World :=
  mkWorld n (futures w) (batchers w) (contexts w) (entities w) (ev_queue w)
    (ev_rpcs w) (app_id w).

Definition set_futures (fs : gmap nat fstate) (w : World) : World :=
  mkWorld (next_id w) fs (batchers w) (contexts w) (entities w) (ev_queue w)
    (ev_rpcs w) (app_id w).

Definition set_batchers (bs : gmap nat AutoBatcher) (w : World) : World :=
  mkWorld (next_id w) (futures w) bs (contexts w) (entities w) (ev_queue w)
    (ev_rpcs w) (app_id w).

Definition set_contexts (cs : gmap nat Context) (w : World) : World :=
  mkWorld (next_id w) (futures w) (batchers w) cs (entities w) (ev_queue w)
    (ev_rpcs w) (app_id w).

Definition set_entities (es : gmap nat Entity) (w : World) : World :=
  mkWorld (next_id w) (futures w) (batchers w) (contexts w) es (ev_queue w)
    (ev_rpcs w) (app_id w).

Definition set_ev_queue (q : list (Z * loop_callback)) (w : World) : World :=
  mkWorld (next_id w) (futures w) (batchers w) (contexts w) (entities w) q
    (ev_rpcs w) (app_id w).

Definition set_ev_rpcs (q : list rpc_entry) (w : World) : World :=
  mkWorld (next_id w) (futures w) (batchers w) (contexts w) (entities w)
    (ev_queue w) q (app_id w).

(** A reference always names an object; reading one that the store does not
    hold yields the object in its state after __init__. *)
Definition fut_state (w : World) (f : ref) : fstate :=
  default Pending (futures w !! f).

Definition new_batcher (m : Connection * batch_method) : AutoBatcher :=
  mkAutoBatcher [] ∅ m None.

Definition batcher (w : World) (self : ref) : AutoBatcher :=
  default (new_batcher (Conn 0, async_get)) (batchers w !! self).

Definition set_batcher (self : ref) (b : AutoBatcher) (w : World) : World :=
  set_batchers (<[self := b]> (batchers w)) w.

Definition context (w : World) (self : ref) : Context :=
  default (mkContext (Conn 0) 0 0 0 ∅ None) (contexts w !! self).

Definition set_context (self : ref) (c : Context) (w : World) : World :=
  set_contexts (<[self := c]> (contexts w)) w.

Definition entity (w : World) (e : ref) : Entity :=
  default (mkEntity VNone "" []) (entities w !! e).

Definition set_entity (e : ref) (x : Entity) (w : World) : World :=
  set_entities (<[e := x]> (entities w)) w.

Definition set_cache (m : gmap value value) (c : Context) : Context :=
  mkContext (_conn c) (_get_batcher c) (_put_batcher c) (_delete_batcher c)
    m (_cache_policy c).

Definition set_policy (p : option (value -> value -> bool)) (c : Context)
    : Context :=
  mkContext (_conn c) (_get_batcher c) (_put_batcher c) (_delete_batcher c)
    (_cache c) p.

Definition set_key (k : value) (x : Entity) : Entity :=
  mkEntity k (ent_kind x) (ent_props x).

Definition set_todo (l : list (ref * value)) (b : AutoBatcher) : AutoBatcher :=
  mkAutoBatcher l (_running b) (_method b) (_options b).

Definition set_running (s : gset nat) (b : AutoBatcher) : AutoBatcher :=
  mkAutoBatcher (_todo b) s (_method b) (_options b).

(** ** Collaborators

    Everything the module does not implement itself is reached through a
    request to the environment: connection calls, the task decorator, user
    callables, the query objects, the MultiFuture, and the scheduler that
    resumes a generator suspended at a [yield]. *)

(** Callables handed to [Context.transaction] and [Context.map_query]: a
    function of the application, or the closure [txn] that
    [Context.get_or_insert] defines. *)
Inductive callable :=
| user_callable (id : nat)
| txn_closure (key : value) (model_class : string)
    (kwds : list (string * value)).

(** Calls of the functions decorated with [@tasks.task]; the decorator
    starts the generator as a task and returns the task's Future. *)
Inductive task_call :=
| task_flush (self : ref)
| task_get (ctx : ref) (key : value)
| task_put (ctx : ref) (entity : ref)
| task_delete (ctx : ref) (key : value)
| task_transaction (ctx : ref) (callback : callable) (retry : Z)
    (entity_group : option Key)
| task_txn (key : value) (model_class : string)
    (kwds : list (string * value)) (ctx : value)
| task_helper (ctx : ref) (query : ref) (callback : callable)
    (options : option nat) (mfut : value).

Inductive request :=
| conn_call (c : rpc_call)
| start_task (t : task_call)
| call_user (id : nat) (arg : value)
| yield_ (v : value)
| yield_tuple (vs : list value)
| new_MultiFuture (reducer initial : value)
| query_run_async (query : ref) (c : Connection) (options : option nat)
| next_batch_async (batch : value) (options : option nat)
| mfut_add_dependent (mfut val : value)
| mfut_process_value (mfut val : value)
| mfut_complete (mfut : value).

(** Marks left in the trace by steps of the module that touch no
    collaborator but that the properties speak about. *)
Inductive observation :=
| constructed_Context (c : ref) (conn : Connection)
| cache_update (parent child : ref).

Inductive event :=
| Interaction (r : request) (o : outcome)
| Logged (l : log_record)
| Observed (o : observation).

(** The environment sees the history and the request, may change the
    world (other tasks run while this one waits) and answers. *)
Definition Env := list event -> request -> World -> World * outcome.

Record State := mkState { world : World; trace : list event }.

(** Result of running a computation: a value, a Python exception, or a
    loop of the source that did not finish within the fuel given. *)
Inductive res (A : Type) :=
| Ok (a : A)
| Err (e : exn)
| Unfinished.
Arguments Ok {A} a.
Arguments Err {A} e.
Arguments Unfinished {A}.

Definition M (A : Type) : Type := Env -> State -> State * res A.

Definition ret {A} (a : A) : M A := fun _ st => (st, Ok a).

Definition bind {A B} (m : M A) (k : A -> M B) : M B :=
  fun env st =>
    match m env st with
    | (st', Ok a) => k a env st'
    | (st', Err e) => (st', Err e)
    | (st', Unfinished) => (st', Unfinished)
    end.

Definition raise_ {A} (e : exn) : M A := fun _ st => (st, Err e).

Definition unfinished {A} : M A := fun _ st => (st, Unfinished).

Declare Scope py_scope.
Delimit Scope py_scope with py.
Notation "x <- m ;; k" := (bind m (fun x => k))
  (at level 100, m at next level, right associativity) : py_scope.
Notation "m ;; k" := (bind m (fun _ => k))
  (at level 100, right associativity) : py_scope.
Open Scope py_scope.

Definition gets {A} (f : World -> A) : M A :=
  fun _ st => (st, Ok (f (world st))).

Definition modify (f : World -> World) : M unit :=
  fun _ st => (mkState (f (world st)) (trace st), Ok tt).

Definition emit (e : event) : M unit :=
  fun _ st => (mkState (world st) (trace st ++ [e]), Ok tt).

(** One exchange with the environment. *)
Definition interact (r : request) : M value :=
  fun env st =>
    let '(w, o) := env (trace st) r (world st) in
    (mkState w (trace st ++ [Interaction r o]),
     match o with Val v => Ok v | Exn e => Err e end).

(** [try: body / except Exception, err: handler / else: orelse]. *)
Definition try_except {A B} (body : M A) (handler : exn -> M B)
    (orelse : A -> M B) : M B :=
  fun env st =>
    match body env st with
    | (st', Ok a) => orelse a env st'
    | (st', Err e) => handler e env st'
    | (st', Unfinished) => (st', Unfinished)
    end.

(** [try: body / finally: final]: an exception of [final] replaces the
    outcome of [body]. *)
Definition try_finally {A} (body : M A) (final : M unit) : M A :=
  fun env st =>
    match body env st with
    | (st', Ok a) => (final ;; ret a) env st'
    | (st', Err e) => (final ;; raise_ e) env st'
    | (st', Unfinished) => (st', Unfinished)
    end.

(** [assert cond]. *)
Definition assert_ (cond : bool) : M unit :=
  if cond then ret tt else raise_ AssertionError.

(** [for x in l: body x]. *)
Fixpoint for_ {A} (l : list A) (body : A -> M unit) : M unit :=
  match l with
  | [] => ret tt
  | x :: l' => body x ;; for_ l' body
  end.

Definition info (l : log_record) : M unit := emit (Logged l).

(** ** Futures and the event loop *)

(** Modelled from the spec: [tasks.Future()] makes a new pending future. *)
Definition new_Future : M ref :=
  fun _ st =>
    let w := world st in
    let f := next_id w in
    (mkState (set_next_id (S f) (set_futures (<[f := Pending]> (futures w)) w))
       (trace st), Ok f).

(** Modelled from the spec: [fut.set_result(v)] resolves a pending future;
    a future is "resolved exactly once", a second resolution is an
    assertion failure. *)
Definition set_result (f : ref) (v : value) : M unit :=
  st <- gets (fun w => fut_state w f) ;;
  match st with
  | Pending => modify (fun w => set_futures (<[f := Resolved v]> (futures w)) w)
  | _ => raise_ AssertionError
  end.

(** Modelled from the spec: [eventloop.queue_task(delay, callback)]. *)
Definition queue_task (delay : Z) (callback : loop_callback) : M unit :=
  modify (fun w => set_ev_queue (ev_queue w ++ [(delay, callback)]) w).

(** Modelled from the spec: [eventloop.queue_rpc(rpc, callback, *args)] with
    [callback = self._rpc_callback] and [args = (rpc, todo, running)]. *)
Definition queue_rpc (rpc : value) (self : ref) (todo : list (ref * value))
    (running : ref) : M unit :=
  modify (fun w =>
    set_ev_rpcs (ev_rpcs w ++ [mkRpcEntry rpc self todo running]) w).

(** ** class AutoBatcher *)

Definition the_batcher (self : ref) : M AutoBatcher :=
  gets (fun w => batcher w self).

Definition update_batcher (self : ref) (f : AutoBatcher -> AutoBatcher)
    : M unit :=
  modify (fun w => set_batcher self (f (batcher w self)) w).

(** AutoBatcher.add *)
Definition add (self : ref) (arg : value) : M ref :=
  fut <- new_Future ;;
  b <- the_batcher self ;;
  (if bool_decide (_todo b = [])
   then queue_task 0 (bound_callback self)
   else ret tt) ;;
  update_batcher self (fun b => set_todo (_todo b ++ [(fut, arg)]) b) ;;
  ret fut.

(** AutoBatcher._callback *)
Definition _callback (self : ref) : M unit :=
  b <- the_batcher self ;;
  if bool_decide (_todo b = []) then ret tt else
  let args := (_todo b).*2 in
  info (log_batch (_method b).2 (length args)) ;;
  rpc <- interact (conn_call
           (call_batch (_method b).1 (_method b).2 (_options b) args)) ;;
  running <- new_Future ;;
  update_batcher self (fun b => set_running ({[running]} ∪ _running b) b) ;;
  b <- the_batcher self ;;
  queue_rpc rpc self (_todo b) running ;;
  update_batcher self (set_todo []).

(** [rpc.get_result()] *)
Definition get_result (rpc : rpc_result) : M result_obj :=
  match rpc with
  | returns r => ret r
  | raises e => raise_ e
  end.

Fixpoint chars (s : string) : list value :=
  match s with
  | EmptyString => []
  | String a s' => VStr (String a EmptyString) :: chars s'
  end.

(** The sequence [zip] iterates over when handed the result of an RPC: a
    list as it is, a string by its characters; no other object of the
    model is iterable. *)
Definition iterate (r : result_obj) : M (list value) :=
  match r with
  | obj_list vs => ret vs
  | obj (VStr s) => ret (chars s)
  | obj _ => raise_ TypeError
  end.

(** AutoBatcher._rpc_callback *)
Definition _rpc_callback (self : ref) (rpc : rpc_result)
    (todo : list (ref * value)) (running : ref) : M unit :=
  set_result running VNone ;;
  b <- the_batcher self ;;
  (if bool_decide (running ∈ _running b)
   then update_batcher self (fun b => set_running (_running b ∖ {[running]}) b)
   else raise_ KeyError) ;;
  values <- get_result rpc ;;
  if bool_decide (values = obj VNone)
  then for_ todo (fun '(fut, arg) => set_result fut VNone)
  else
    vs <- iterate values ;;
    for_ (zip todo vs) (fun '((fut, arg), val) => set_result fut val).

(** [if self._todo: self._callback()] *)
Definition dispatch (self : ref) : M unit :=
  b <- the_batcher self ;;
  if bool_decide (_todo b = []) then ret tt else _callback self.

(** [for running in frozenset(self._running): yield running] *)
Definition await_each (rs : list ref) : M unit :=
  for_ rs (fun running => interact (yield_ (VFuture running)) ;; ret tt).

(** AutoBatcher.flush.  The [while] loop runs as long as other tasks keep
    the batcher busy; [fuel] bounds the number of iterations unrolled. *)
Fixpoint flush (fuel : nat) (self : ref) : M value :=
  match fuel with
  | O => unfinished
  | S fuel' =>
      b <- the_batcher self ;;
      if bool_decide (_todo b = []) && bool_decide (_running b = ∅)
      then ret VNone
      else
        dispatch self ;;
        b <- the_batcher self ;;
        await_each (elements (_running b)) ;;
        flush fuel' self
  end.

(** ** class Context *)

Definition the_context (self : ref) : M Context :=
  gets (fun w => context w self).

Definition update_context (self : ref) (f : Context -> Context) : M unit :=
  modify (fun w => set_context self (f (context w self)) w).

(** A new object identity. *)
Definition alloc : M ref :=
  fun _ st =>
    let w := world st in
    (mkState (set_next_id (S (next_id w)) w) (trace st), Ok (next_id w)).

(** AutoBatcher.__init__ *)
Definition AutoBatcher_init (method : Connection * batch_method) : M ref :=
  self <- alloc ;;
  modify (set_batcher self (new_batcher method)) ;;
  ret self.

(** The module-level default connection [model.conn]. *)
Definition model_conn : Connection := Conn 0.

(** Context.__init__ (the only auto_batcher_class of the module is
    AutoBatcher). *)
Definition Context_init (conn : option Connection) : M ref :=
  let conn := default model_conn conn in
  self <- alloc ;;
  get_batcher <- AutoBatcher_init (conn, async_get) ;;
  put_batcher <- AutoBatcher_init (conn, async_put) ;;
  delete_batcher <- AutoBatcher_init (conn, async_delete) ;;
  modify (set_context self
            (mkContext conn get_batcher put_batcher delete_batcher ∅ None)) ;;
  emit (Observed (constructed_Context self conn)) ;;
  ret self.

(** Context.set_cache_policy *)
Definition set_cache_policy (self : ref) (func : option (value -> value -> bool))
    : M unit :=
  update_context self (set_policy func).

(** Context.should_cache *)
Definition should_cache (self : ref) (key entity : value) : M bool :=
  c <- the_context self ;;
  match _cache_policy c with
  | None => ret true
  | Some policy => ret (policy key entity)
  end.

(** [self._cache[key] = entity] *)
Definition cache_store (self : ref) (key entity : value) : M unit :=
  update_context self (fun c => set_cache (<[key := entity]> (_cache c)) c).

(** Context.get *)
Definition get (self : ref) (key : value) : M value :=
  c <- the_context self ;;
  match _cache c !! key with
  | Some entity => ret entity
  | None =>
      fut <- add (_get_batcher c) key ;;
      entity <- interact (yield_ (VFuture fut)) ;;
      ok <- should_cache self key entity ;;
      (if ok then cache_store self key entity else ret tt) ;;
      ret entity
  end.

(** Context.put *)
Definition put (self : ref) (ent : ref) : M value :=
  c <- the_context self ;;
  fut <- add (_put_batcher c) (VEntity ent) ;;
  key <- interact (yield_ (VFuture fut)) ;;
  old <- gets (fun w => ent_key (entity w ent)) ;;
  (if bool_decide (old ≠ key)
   then info (log_replacing_key old key) ;;
        modify (fun w => set_entity ent (set_key key (entity w ent)) w)
   else ret tt) ;;
  ok <- should_cache self key (VEntity ent) ;;
  (if ok then cache_store self key (VEntity ent) else ret tt) ;;
  ret key.

(** Context.delete *)
Definition delete (self : ref) (key : value) : M value :=
  c <- the_context self ;;
  fut <- add (_delete_batcher c) key ;;
  interact (yield_ (VFuture fut)) ;;
  c <- the_context self ;;
  (if bool_decide (is_Some (_cache c !! key))
   then cache_store self key VNone
   else ret tt) ;;
  ret VNone.

(** Context.allocate_ids *)
Definition allocate_ids (self : ref) (key : value) (size max : option Z)
    : M value :=
  c <- the_context self ;;
  rpc <- interact (conn_call (call_allocate_ids (_conn c) key size max)) ;;
  lo_hi <- interact (yield_ rpc) ;;
  ret lo_hi.

(** Calling a callable object: a user function is a collaborator; [txn]
    is decorated with [@tasks.task], so calling it starts a task. *)
Definition call_request (f : callable) (arg : value) : request :=
  match f with
  | user_callable id => call_user id arg
  | txn_closure key model_class kwds =>
      start_task (task_txn key model_class kwds arg)
  end.

Definition call (f : callable) (arg : value) : M value :=
  interact (call_request f arg).

Definition is_Future (v : value) : bool :=
  match v with VFuture _ => true | _ => false end.

(** [ent != cached] where [ent] is an entity: instances are compared by
    their attributes. *)
Definition differs (w : World) (ent : ref) (cached : value) : bool :=
  match cached with
  | VEntity e => bool_decide (entity w ent ≠ entity w e)
  | _ => true
  end.

(** The body of the [for ent in batch.results] loop of map_query's
    helper; the result is the new value of [count]. *)
Definition process_result (self : ref) (callback : callable) (mfut : value)
    (ent : ref) (count : Z) : M Z :=
  key <- gets (fun w => ent_key (entity w ent)) ;;
  c <- the_context self ;;
  seen <-
    match _cache c !! key with
    | Some cached =>
        if bool_decide (cached = VNone)
        then info (log_conflict_deleted key) ;; ret None
        else
          diff <- gets (fun w => differs w ent cached) ;;
          (if diff then info (log_conflict_modified key) else ret tt) ;;
          ret (Some cached)
    | None =>
        ok <- should_cache self key (VEntity ent) ;;
        (if ok then cache_store self key (VEntity ent) else ret tt) ;;
        ret (Some (VEntity ent))
    end ;;
  match seen with
  | None => ret count
  | Some ent =>
      let count := (count + 1)%Z in
      val <- call callback ent ;;
      (if is_Future val
       then interact (mfut_add_dependent mfut val)
       else interact (mfut_process_value mfut val)) ;;
      ret count
  end.

Fixpoint process_results (self : ref) (callback : callable) (mfut : value)
    (results : list ref) (count : Z) : M Z :=
  match results with
  | [] => ret count
  | ent :: rest =>
      count <- process_result self callback mfut ent count ;;
      process_results self callback mfut rest count
  end.

(** [batch.results] *)
Definition batch_results (batch : value) : M (list ref) :=
  match batch with
  | VBatch rs => ret rs
  | _ => raise_ AttributeError
  end.

(** [batch.next_batch_async(options)] *)
Definition next_batch (batch : value) (options : option nat) : M value :=
  match batch with
  | VBatch _ => interact (next_batch_async batch options)
  | _ => raise_ AttributeError
  end.

(** The [while rpc is not None] loop of map_query's helper. *)
Fixpoint helper_loop (fuel : nat) (self : ref) (callback : callable)
    (options : option nat) (mfut : value) (rpc : value) (count : Z)
    : M value :=
  match fuel with
  | O => unfinished
  | S fuel' =>
      if bool_decide (rpc = VNone)
      then interact (mfut_complete mfut) ;; ret (VInt count)
      else
        batch <- interact (yield_ rpc) ;;
        rpc <- next_batch batch options ;;
        results <- batch_results batch ;;
        count <- process_results self callback mfut results count ;;
        helper_loop fuel' self callback options mfut rpc count
  end.

(** The task [helper] defined inside Context.map_query. *)
Definition helper (fuel : nat) (self : ref) (query : ref)
    (callback : callable) (options : option nat) (mfut : value) : M value :=
  c <- the_context self ;;
  rpc <- interact (query_run_async query (_conn c) options) ;;
  helper_loop fuel self callback options mfut rpc 0%Z.

(** Context.map_query: returns the MultiFuture and the helper's Future. *)
Definition map_query (self : ref) (query : ref) (callback : callable)
    (options : option nat) (reducer initial : value) : M (value * value) :=
  mfut <- interact (new_MultiFuture reducer initial) ;;
  fut <- interact (start_task (task_helper self query callback options mfut)) ;;
  ret (mfut, fut).

(** [yield (b1.flush(), b2.flush(), b3.flush())] on the three batchers of
    a context. *)
Definition flush_all (ctx : ref) : M unit :=
  c <- the_context ctx ;;
  f1 <- interact (start_task (task_flush (_get_batcher c))) ;;
  c <- the_context ctx ;;
  f2 <- interact (start_task (task_flush (_put_batcher c))) ;;
  c <- the_context ctx ;;
  f3 <- interact (start_task (task_flush (_delete_batcher c))) ;;
  interact (yield_tuple [f1; f2; f3]) ;;
  ret tt.

Definition could_not_commit : exn :=
  TransactionFailedError
    "The transaction could not be committed. Please try again.".

(** The body of the [for i in range(...)] loop of Context.transaction.
    [Some result] stands for [raise tasks.Return(result)], which ends the
    task; [None] for reaching the end of the body, after which the loop
    goes on. *)
Definition attempt (self : ref) (callback : callable)
    (entity_group : option Key) (app_id : value) : M (option value) :=
  c <- the_context self ;;
  rpc <- interact (conn_call (call_begin_transaction (_conn c) app_id)) ;;
  transaction <- interact (yield_ rpc) ;;
  c <- the_context self ;;
  let tconn := TransactionalConnection (_conn c) transaction entity_group in
  tctx <- Context_init (Some tconn) ;;
  fut <- call callback (VContext tctx) ;;
  assert_ (is_Future fut) ;;
  try_except
    (try_finally (interact (yield_ fut)) (flush_all tctx))
    (fun err =>
       rpc <- interact (conn_call (call_rollback tconn)) ;;
       interact (yield_ rpc) ;;
       raise_ err)
    (fun result =>
       rpc <- interact (conn_call (call_commit tconn)) ;;
       ok <- interact (yield_ rpc) ;;
       if truthy ok
       then
         child <- the_context tctx ;;
         update_context self
           (fun c => set_cache (_cache child ∪ _cache c) c) ;;
         emit (Observed (cache_update self tctx)) ;;
         ret (Some result)
       else ret None).

(** The loop with [n] iterations left, followed by the statement after
    the loop. *)
Fixpoint attempts (n : nat) (self : ref) (callback : callable)
    (entity_group : option Key) (app_id : value) : M value :=
  match n with
  | O => raise_ could_not_commit
  | S n' =>
      r <- attempt self callback entity_group app_id ;;
      match r with
      | Some result => ret result
      | None => attempts n' self callback entity_group app_id
      end
  end.

(** Context.transaction *)
Definition transaction (self : ref) (callback : callable) (retry : Z)
    (entity_group : option Key) : M value :=
  app_id <-
    match entity_group with
    | Some k => ret (VStr (app k))
    | None => gets (fun w => VStr (app_id w))
    end ;;
  flush_all self ;;
  attempts (Z.to_nat (1 + Z.max 0 retry)) self callback entity_group app_id.

Definition is_basestring (v : value) : bool :=
  match v with VStr _ => true | _ => false end.

(** The last component of a key path made from [name]. *)
Definition name_part (name : value) : Z + string :=
  match name with
  | VStr s => inr s
  | VInt n => inl n
  | _ => inr ""
  end.

(** Calling [model_class] with the keyword arguments [kwds]: a new
    instance without a key. *)
Definition new_Model (model_class : string) (kwds : list (string * value))
    : M ref :=
  e <- alloc ;;
  modify (set_entity e (mkEntity VNone model_class kwds)) ;;
  ret e.

(** The task [txn] defined inside Context.get_or_insert. *)
Definition txn (key : value) (model_class : string)
    (kwds : list (string * value)) (ctx : ref) : M value :=
  fut <- interact (start_task (task_get ctx key)) ;;
  ent <- interact (yield_ fut) ;;
  if bool_decide (ent = VNone)
  then
    e <- new_Model model_class kwds ;;
    modify (fun w => set_entity e (set_key key (entity w e)) w) ;;
    fut <- interact (start_task (task_put ctx e)) ;;
    interact (yield_ fut) ;;
    ret (VEntity e)
  else ret ent.

(** Context.get_or_insert *)
Definition get_or_insert (self : ref) (model_class : string) (name : value)
    (parent : option Key) (kwds : list (string * value)) : M value :=
  assert_ (is_basestring name && truthy name) ;;
  let pairs := match parent with None => [] | Some p => pairs p end in
  let pairs := pairs ++ [(model_class, name_part name)] in
  app_id <- gets app_id ;;
  let key := VKey (mkKey app_id pairs) in
  fut <- interact (start_task (task_get self key)) ;;
  ent <- interact (yield_ fut) ;;
  if bool_decide (ent = VNone)
  then
    fut <- interact
             (start_task (task_transaction self
                            (txn_closure key model_class kwds) 3 None)) ;;
    ent <- interact (yield_ fut) ;;
    ret ent
  else ret ent.

(** The generator that a task call starts; [fuel] bounds the loops of
    [flush] and of map_query's helper. *)
Definition task_body (fuel : nat) (t : task_call) : M value :=
  match t with
  | task_flush self => flush fuel self
  | task_get ctx key => get ctx key
  | task_put ctx ent => put ctx ent
  | task_delete ctx key => delete ctx key
  | task_transaction ctx callback retry entity_group =>
      transaction ctx callback retry entity_group
  | task_txn key model_class kwds (VContext ctx) =>
      txn key model_class kwds ctx
  | task_txn _ _ _ _ => raise_ AttributeError
  | task_helper ctx query callback options mfut =>
      helper fuel ctx query callback options mfut
  end.

(** ** Observations used in the statements *)

(** A sequence of [add] calls on one batcher, in order. *)
Fixpoint add_all (self : ref) (args : list value) : M (list ref) :=
  match args with
  | [] => ret []
  | arg :: rest =>
      fut <- add self arg ;;
      futs <- add_all self rest ;;
      ret (fut :: futs)
  end.

(** Number of flush callbacks of batcher [self] waiting in the event loop. *)
Definition scheduled (w : World) (self : ref) : nat :=
  length (filter (fun e => e.2 = bound_callback self) (ev_queue w)).

(** The requests made to the environment, in order. *)
Fixpoint requests_of (tr : list event) : list request :=
  match tr with
  | [] => []
  | Interaction r _ :: tr' => r :: requests_of tr'
  | _ :: tr' => requests_of tr'
  end.

(** The future states a loop of [set_result] calls leaves behind. *)
Definition resolve (l : list (ref * value)) (w : World) : World :=
  foldl (fun w '(f, v) => set_futures (<[f := Resolved v]> (futures w)) w) w l.

(** The state after the first two statements of [_rpc_callback]: the
    marker is resolved and taken out of the running set. *)
Definition marker_done (self running : ref) (w : World) : World :=
  let w1 := set_futures (<[running := Resolved VNone]> (futures w)) w in
  set_batcher self
    (set_running (_running (batcher w1 self) ∖ {[running]}) (batcher w1 self))
    w1.

(** What one [add] does to the world; the trace is untouched. *)
Definition after_add (self : ref) (arg : value) (w : World) : World :=
  let f := next_id w in
  let b := batcher w self in
  let w1 := set_next_id (S f) (set_futures (<[f := Pending]> (futures w)) w) in
  let w2 := if bool_decide (_todo b = [])
            then set_ev_queue (ev_queue w1 ++ [(0%Z, bound_callback self)]) w1
            else w1 in
  set_batcher self (set_todo (_todo b ++ [(f, arg)]) b) w2.

(** The world after a sequence of [add] calls on one batcher. *)
Definition adds (self : ref) (args : list value) (w : World) : World :=
  foldl (fun w arg => after_add self arg w) w args.

(** Nothing pending and nothing in flight. *)
Definition idle (w : World) (self : ref) : Prop :=
  _todo (batcher w self) = [] /\ _running (batcher w self) = ∅.

(** The state after [Context.__init__]: four new objects, the context and
    its three batchers. *)
Definition with_Context (conn : Connection) (w : World) : World :=
  let self := next_id w in
  set_context self
    (mkContext conn (S self) (S (S self)) (S (S (S self))) ∅ None)
    (set_batcher (S (S (S self))) (new_batcher (conn, async_delete))
       (set_batcher (S (S self)) (new_batcher (conn, async_put))
          (set_batcher (S self) (new_batcher (conn, async_get))
             (set_next_id (S (S (S (S self)))) w)))).

Definition is_begin (r : request) : bool :=
  match r with
  | conn_call (call_begin_transaction _ _) => true
  | _ => false
  end.

(** Number of transactions begun, that is of attempts made. *)
Definition begins (tr : list event) : nat :=
  length (filter (fun r => is_begin r = true) (requests_of tr)).

Definition is_update (e : event) : bool :=
  match e with
  | Observed (cache_update _ _) => true
  | _ => false
  end.

(** Number of merges of a child cache into a parent cache. *)
Definition updates (tr : list event) : nat :=
  length (filter (fun e => is_update e = true) tr).

(** The history ends with a commit call that returned its RPC handle, so
    that the next request is the wait for the outcome of the commit. *)
Definition just_committed (tr : list event) : bool :=
  match last tr with
  | Some (Interaction (conn_call (call_commit _)) (Val _)) => true
  | _ => false
  end.

(** The events of an attempt whose commit is rejected: a transaction is
    begun, a context is constructed on a connection bound to it, the
    callback is called on that context and its future awaited, the three
    batchers of the context are flushed, the commit is issued and answers
    with a false value. *)
Definition rejected_attempt (self : ref) (callback : callable)
    (entity_group : option Key) (app_id : value) (evs : list event) : Prop :=
  exists conn base rpc transaction tctx fut result g p d f1 f2 f3 x rpc' ok,
    let tconn := TransactionalConnection base transaction entity_group in
    evs =
      [Interaction (conn_call (call_begin_transaction conn app_id)) (Val rpc);
       Interaction (yield_ rpc) (Val transaction);
       Observed (constructed_Context tctx tconn);
       Interaction (call_request callback (VContext tctx)) (Val fut);
       Interaction (yield_ fut) (Val result);
       Interaction (start_task (task_flush g)) (Val f1);
       Interaction (start_task (task_flush p)) (Val f2);
       Interaction (start_task (task_flush d)) (Val f3);
       Interaction (yield_tuple [f1; f2; f3]) (Val x);
       Interaction (conn_call (call_commit tconn)) (Val rpc');
       Interaction (yield_ rpc') (Val ok)] /\
    truthy ok = false.

(** The events of an attempt whose callback fails with [e]: after the
    failed wait for the callback's future the three batchers of the child
    context are flushed and a rollback is issued on the transactional
    connection and awaited. *)
Definition rolled_back_attempt (self : ref) (callback : callable)
    (entity_group : option Key) (app_id : value) (e : exn)
    (evs : list event) : Prop :=
  exists conn base rpc transaction tctx fut w1 w2 w3 f1 f2 f3 x rpc' ack,
    let tconn := TransactionalConnection base transaction entity_group in
    evs =
      [Interaction (conn_call (call_begin_transaction conn app_id)) (Val rpc);
       Interaction (yield_ rpc) (Val transaction);
       Observed (constructed_Context tctx tconn);
       Interaction (call_request callback (VContext tctx)) (Val (VFuture fut));
       Interaction (yield_ (VFuture fut)) (Exn e);
       Interaction (start_task (task_flush (_get_batcher (context w1 tctx))))
         (Val f1);
       Interaction (start_task (task_flush (_put_batcher (context w2 tctx))))
         (Val f2);
       Interaction (start_task (task_flush (_delete_batcher (context w3 tctx))))
         (Val f3);
       Interaction (yield_tuple [f1; f2; f3]) (Val x);
       Interaction (conn_call (call_rollback tconn)) (Val rpc');
       Interaction (yield_ rpc') (Val ack)].

(** The run from [st] to [st'] merged a child cache into the cache of
    [self] once, as its last step, right after a commit whose outcome was
    true; the cache of [self] is what it was in [st], updated with the
    child's cache. *)
Definition merged_once (self : ref) (st st' : State) : Prop :=
  exists tctx pre c rpc ok,
    trace st' =
      pre ++ [Interaction (conn_call (call_commit c)) (Val rpc);
              Interaction (yield_ rpc) (Val ok);
              Observed (cache_update self tctx)] /\
    truthy ok = true /\
    updates pre = updates (trace st) /\
    tctx <> self /\
    _cache (context (world st') self) =
      _cache (context (world st') tctx) ∪ _cache (context (world st) self).

(** The run from [st] to [st'] left the cache of [self] as it was and
    merged nothing. *)
Definition untouched (self : ref) (st st' : State) : Prop :=
  _cache (context (world st') self) = _cache (context (world st) self) /\
  updates (trace st') = updates (trace st).

(** ** Assumptions on the environment *)

(** Environments in which a connection call returns its RPC handle
    without anything else happening. *)
Definition quiet_connection (env : Env) : Prop :=
  forall tr c w, exists rpc, env tr (conn_call c) w = (w, Val rpc).

(** Environments in which the scheduler completes what [flush] waits for:
    the wait for a marker ends normally, after it the marker has left the
    running set of [self], and meanwhile nothing was added to the running
    set or to the pending queue. *)
Definition completes_waits (self : ref) (env : Env) : Prop :=
  quiet_connection env /\
  forall tr r w,
    let w' := (env tr (yield_ (VFuture r)) w).1 in
    (exists v, (env tr (yield_ (VFuture r)) w).2 = Val v) /\
    _running (batcher w' self) ⊆ _running (batcher w self) ∖ {[r]} /\
    _todo (batcher w' self) = _todo (batcher w self).

(** Environments in which every collaborator answers without raising. *)
Definition answers_normally (env : Env) : Prop :=
  forall tr r w, exists v, (env tr r w).2 = Val v.

(** Environments in which calling a task function or the transaction
    callback returns a Future. *)
Definition calls_return_futures (env : Env) : Prop :=
  forall tr r w,
    match r with
    | start_task _ | call_user _ _ => exists f, (env tr r w).2 = Val (VFuture f)
    | _ => True
    end.

(** Environments in which every commit is rejected. *)
Definition commits_rejected (env : Env) : Prop :=
  forall tr rpc w v,
    just_committed tr = true ->
    (env tr (yield_ rpc) w).2 = Val v -> truthy v = false.

(** Environments in which connection calls return RPC handles and the
    wait for an RPC or for a tuple of futures ends normally. *)
Definition rpcs_succeed (env : Env) : Prop :=
  (forall tr c w, exists r, (env tr (conn_call c) w).2 = Val (VRpc r)) /\
  (forall tr r w, exists v, (env tr (yield_ (VRpc r)) w).2 = Val v) /\
  (forall tr vs w, exists v, (env tr (yield_tuple vs) w).2 = Val v).

(** Environments in which the wait for a single future raises [e]. *)
Definition futures_fail (e : exn) (env : Env) : Prop :=
  forall tr f w, (env tr (yield_ (VFuture f)) w).2 = Exn e.

(** Environments that leave the cache of context [self] alone and never
    hand out the identity of an existing object again. *)
Definition respects (self : ref) (env : Env) : Prop :=
  forall tr r w,
    _cache (context (env tr r w).1 self) = _cache (context w self) /\
    next_id w <= next_id (env tr r w).1.

(** ** Concrete environments and states *)

(** The world before any object exists. *)
Definition world0 : World := mkWorld 0 ∅ ∅ ∅ ∅ [] [] "dev~app".

(** An environment in which every collaborator answers at once: connection
    calls hand out RPC handles, task calls hand out futures, everything
    else answers None. *)
Definition env0 : Env :=
  fun tr r w =>
    (w, match r with
        | conn_call _ => Val (VRpc (length tr))
        | start_task _ => Val (VFuture (1000 + length tr))
        | _ => Val VNone
        end).

Definition key_of (name : string) : value :=
  VKey (mkKey "dev~app" [("Kind", inr name)]).

(** A new batcher for gets, nothing queued. *)
Definition st_batcher : State :=
  (AutoBatcher_init (Conn 1, async_get) env0 (mkState world0 [])).1.

(** Three gets queued on a new batcher and dispatched as one batch. *)
Definition batch3 : M ref :=
  self <- AutoBatcher_init (Conn 1, async_get) ;;
  add self (key_of "A") ;;
  add self (key_of "B") ;;
  add self (key_of "C") ;;
  _callback self ;;
  ret self.

Definition st3 : State := (batch3 env0 (mkState world0 [])).1.

Definition todo3 : list (ref * value) :=
  [(1, key_of "A"); (2, key_of "B"); (3, key_of "C")].

(** Modelled from the spec: the event loop "invokes RPC-completion
    callbacks when the transport signals completion".  In [env_loop] the
    wait for a marker lets the loop complete the RPC registered with that
    marker and run its callback; the store answers every request of the
    batch with the request itself. *)
Definition complete (running : ref) (w : World) : World :=
  match filter (fun e => q_running e = running) (ev_rpcs w) with
  | e :: _ =>
      let w1 :=
        set_ev_rpcs (filter (fun e => q_running e <> running) (ev_rpcs w)) w in
      world (_rpc_callback (q_self e) (returns (obj_list (q_todo e).*2))
               (q_todo e) running env0 (mkState w1 [])).1
  | [] => w
  end.

Definition env_loop : Env :=
  fun tr r w =>
    match r with
    | yield_ (VFuture f) => (complete f w, Val VNone)
    | _ => env0 tr r w
    end.

(** An environment whose scheduler completes every wait for a marker of
    batcher [self] by taking the marker out of the running set. *)
Definition env_fair (self : ref) : Env :=
  fun tr r w =>
    match r with
    | yield_ (VFuture f) =>
        (set_batcher self
           (set_running (_running (batcher w self) ∖ {[f]}) (batcher w self))
           w,
         Val VNone)
    | _ => env0 tr r w
    end.

(** Three gets queued on a new batcher, not yet dispatched. *)
Definition queued3 : M ref :=
  self <- AutoBatcher_init (Conn 1, async_get) ;;
  add self (key_of "A") ;;
  add self (key_of "B") ;;
  add self (key_of "C") ;;
  ret self.

Definition st_queued : State := (queued3 env_loop (mkState world0 [])).1.

(** An environment whose store answers every wait with a live entity. *)
Definition env_live : Env := fun _ _ w => (w, Val (VEntity 7)).

(** A new context on which [delete] has been called for a key that was
    never cached. *)
Definition st_deleted : State :=
  ((self <- Context_init None ;; delete self (key_of "A"))
     env_live (mkState world0 [])).1.

(** An environment whose store answers every wait with the key A. *)
Definition env_key : Env := fun _ _ w => (w, Val (key_of "A")).

(** A new context (object 0, batchers 1 to 3) and a new entity without
    a key (object 4). *)
Definition st_ctx : State :=
  ((self <- Context_init None ;; new_Model "Kind" [("x", VInt 1)])
     env_key (mkState world0 [])).1.

(** ... after [put] of the entity, and after [delete] of its key. *)
Definition st_stored : State := (put 0 4 env_key st_ctx).1.

Definition st_removed : State := (delete 0 (key_of "A") env_key st_stored).1.

(** A context whose cache holds a tombstone for key A and the entity 4
    for key B; the entities 5 (key A) and 6 (key B, other properties than
    4) stand for results of a query. *)
Definition st_query : State :=
  ((self <- Context_init None ;;
    e4 <- new_Model "Kind" [("x", VInt 1)] ;;
    modify (fun w => set_entity e4 (set_key (key_of "B") (entity w e4)) w) ;;
    e5 <- new_Model "Kind" [("x", VInt 5)] ;;
    modify (fun w => set_entity e5 (set_key (key_of "A") (entity w e5)) w) ;;
    e6 <- new_Model "Kind" [("x", VInt 2)] ;;
    modify (fun w => set_entity e6 (set_key (key_of "B") (entity w e6)) w) ;;
    cache_store self (key_of "A") VNone ;;
    cache_store self (key_of "B") (VEntity e4))
     env0 (mkState world0 [])).1.

(** Every commit is rejected. *)
Definition env_reject : Env :=
  fun tr r w =>
    (w, match r with
        | conn_call _ => Val (VRpc (length tr))
        | start_task _ | call_user _ _ => Val (VFuture (length tr))
        | yield_ _ =>
            if just_committed tr then Val (VBool false) else Val (VStr "ok")
        | _ => Val VNone
        end).

(** The callback's future fails. *)
Definition env_fail : Env :=
  fun tr r w =>
    (w, match r with
        | conn_call _ => Val (VRpc (length tr))
        | start_task _ | call_user _ _ => Val (VFuture (length tr))
        | yield_ (VFuture _) => Exn (Failure "boom")
        | _ => Val VNone
        end).

(** The callback stores an entity in the cache of the child context (the
    object 5 in a run from [st_ctx]) and every commit is accepted. *)
Definition env_commit : Env :=
  fun tr r w =>
    match r with
    | conn_call _ => (w, Val (VRpc (length tr)))
    | start_task _ | call_user _ _ => (w, Val (VFuture (length tr)))
    | yield_ (VFuture _) =>
        (set_context 5
           (set_cache (<[key_of "A" := VEntity 4]> (_cache (context w 5)))
              (context w 5)) w,
         Val (VStr "done"))
    | yield_ (VRpc _) => (w, Val (VBool true))
    | _ => (w, Val VNone)
    end.

(** ** Further observations and states

    Used by the properties of the code that go beyond the claims of the
    specification. *)

(** Environments that answer without touching the world: no other task
    runs while the caller waits. *)
Definition passive (env : Env) : Prop := forall tr r w, (env tr r w).1 = w.

(** What a successful [_callback] does to the world in which the
    connection call returned [rpc]. *)
Definition after_dispatch (self : ref) (rpc : value) (w : World) : World :=
  let running := next_id w in
  let w1 :=
    set_next_id (S running)
      (set_futures (<[running := Pending]> (futures w)) w) in
  let w2 :=
    set_batcher self
      (set_running ({[running]} ∪ _running (batcher w1 self)) (batcher w1 self))
      w1 in
  let w3 :=
    set_ev_rpcs
      (ev_rpcs w2 ++ [mkRpcEntry rpc self (_todo (batcher w2 self)) running])
      w2 in
  set_batcher self (set_todo [] (batcher w3 self)) w3.

(** The log record and the connection call of a dispatch from [w]. *)
Definition batch_log (self : ref) (w : World) : event :=
  Logged (log_batch (_method (batcher w self)).2
            (length (_todo (batcher w self)).*2)).

Definition batch_call (self : ref) (w : World) : request :=
  conn_call (call_batch (_method (batcher w self)).1
               (_method (batcher w self)).2 (_options (batcher w self))
               (_todo (batcher w self)).*2).

(** Rounds of the event loop on one batcher: in each round the requests
    of the round are added, then the flush callback runs. *)
Fixpoint rounds (self : ref) (batches : list (list value)) : M unit :=
  match batches with
  | [] => ret tt
  | args :: rest => add_all self args ;; _callback self ;; rounds self rest
  end.

(** The connection is down: every connection call raises. *)
Definition env_down : Env :=
  fun tr r w =>
    (w, match r with
        | conn_call _ => Exn (Failure "down")
        | _ => Val VNone
        end).

(** The verdict of [should_cache] in context [c]. *)
Definition policy_says (c : Context) (key entity : value) : bool :=
  match _cache_policy c with
  | None => true
  | Some policy => policy key entity
  end.

(** The world after [self._cache[key] = entity]. *)
Definition cached (self : ref) (key entity : value) (w : World) : World :=
  set_context self
    (set_cache (<[key := entity]> (_cache (context w self))) (context w self))
    w.

(** The wait of a task that has just queued [arg] on batcher [b]: the
    future it waits for, and the answer of the scheduler. *)
Definition wait_for (b : ref) (arg : value) (env : Env) (st : State)
    : World * outcome :=
  env (trace st) (yield_ (VFuture (next_id (world st))))
    (after_add b arg (world st)).

(** How the helper of map_query hands a callback's result to the
    MultiFuture. *)
Definition route (mfut val : value) : request :=
  if is_Future val then mfut_add_dependent mfut val
  else mfut_process_value mfut val.

(** Calls of a callback: a user function, or the task [txn]. *)
Definition is_call (r : request) : bool :=
  match r with
  | call_user _ _ | start_task (task_txn _ _ _ _) => true
  | _ => false
  end.

Definition calls (tr : list event) : nat :=
  length (filter (fun r => is_call r = true) (requests_of tr)).

Definition is_complete (r : request) : bool :=
  match r with
  | mfut_complete _ => true
  | _ => false
  end.

(** Number of times a MultiFuture was told that no more results follow. *)
Definition completions (tr : list event) : nat :=
  length (filter (fun r => is_complete r = true) (requests_of tr)).

(** A query whose first batch holds the entities 5 and 6 of [st_query]
    and which has no second batch; the callback answers with a number. *)
Definition env_query : Env :=
  fun tr r w =>
    (w, match r with
        | query_run_async _ _ _ => Val (VRpc 0)
        | yield_ _ => Val (VBatch [5; 6])
        | call_user _ _ => Val (VInt 1)
        | _ => Val VNone
        end).

(** A new context and an entity with key C that the cache does not hold. *)
Definition st_result : State :=
  ((self <- Context_init None ;;
    e <- new_Model "Kind" [("x", VInt 1)] ;;
    modify (fun w => set_entity e (set_key (key_of "C") (entity w e)) w))
     env0 (mkState world0 [])).1.

Definition is_commit (r : request) : bool :=
  match r with
  | conn_call (call_commit _) => true
  | _ => false
  end.

Definition is_rollback (r : request) : bool :=
  match r with
  | conn_call (call_rollback _) => true
  | _ => false
  end.

(** Number of commits and of rollbacks requested. *)
Definition commits (tr : list event) : nat :=
  length (filter (fun r => is_commit r = true) (requests_of tr)).

Definition rollbacks (tr : list event) : nat :=
  length (filter (fun r => is_rollback r = true) (requests_of tr)).

(** A call of a callback that returned a Future. *)
Definition returned_future (e : event) : bool :=
  match e with
  | Interaction r (Val v) => is_call r && is_Future v
  | _ => false
  end.

(** The application a transaction is begun in. *)
Definition transaction_app (entity_group : option Key) (w : World) : value :=
  match entity_group with
  | Some k => VStr (app k)
  | None => VStr (app_id w)
  end.

(** Every transaction begun by these requests is begun in [a]. *)
Definition begun_in (a : value) (rs : list request) : Prop :=
  Forall (fun r => forall c a', r = conn_call (call_begin_transaction c a') ->
                                a' = a) rs.

(** The key [get_or_insert] builds from the parent path, the kind of the
    model class and the name. *)
Definition child_key (w : World) (parent : option Key) (model_class s : string)
    : value :=
  VKey (mkKey (app_id w)
          (match parent with None => [] | Some p => pairs p end
           ++ [(model_class, inr s)])).

(** The store holds nothing: every lookup and every other wait answers
    None; task calls hand out futures. *)
Definition env_absent : Env :=
  fun tr r w =>
    (w, match r with
        | start_task _ => Val (VFuture (length tr))
        | _ => Val VNone
        end).

(** Environments that leave the context [self] as it is. *)
Definition keeps_context (self : ref) (env : Env) : Prop :=
  forall tr r w, context (env tr r w).1 self = context w self.

(** A cache policy that refuses every entity. *)
Definition cache_nothing : value -> value -> bool := fun _ _ => false.

(** * Theorems *)

(** ** Running a computation *)

Lemma bind_Ok_inv {A B} (m : M A) (k : A -> M B) env st st' b :
  bind m k env st = (st', Ok b) ->
  exists a st1, m env st = (st1, Ok a) /\ k a env st1 = (st', Ok b).
Proof.
  unfold bind. destruct (m env st) as [st1 [a|e|]]; intros H; try discriminate.
  eauto.
Qed.

Lemma bind_Ok {A B} (m : M A) (k : A -> M B) env st st1 a :
  m env st = (st1, Ok a) -> bind m k env st = k a env st1.
Proof. unfold bind. by intros ->. Qed.

Lemma bind_Err {A B} (m : M A) (k : A -> M B) env st st1 e :
  m env st = (st1, Err e) -> bind m k env st = (st1, Err e).
Proof. unfold bind. by intros ->. Qed.

Lemma state_eta st : mkState (world st) (trace st) = st.
Proof. by destruct st. Qed.

Lemma bind_ret {A B} (a : A) (k : A -> M B) env st :
  bind (ret a) k env st = k a env st.
Proof. reflexivity. Qed.

Lemma bind_bind {A B C} (m : M A) (f : A -> M B) (g : B -> M C) env st :
  bind (bind m f) g env st = bind m (fun a => bind (f a) g) env st.
Proof. unfold bind. by destruct (m env st) as [st1 [a|e|]]. Qed.

Lemma bind_gets {A B} (f : World -> A) (k : A -> M B) env st :
  bind (gets f) k env st = k (f (world st)) env st.
Proof. reflexivity. Qed.

Lemma bind_modify {B} (f : World -> World) (k : unit -> M B) env st :
  bind (modify f) k env st = k tt env (mkState (f (world st)) (trace st)).
Proof. reflexivity. Qed.

Lemma bind_emit {B} (e : event) (k : unit -> M B) env st :
  bind (emit e) k env st = k tt env (mkState (world st) (trace st ++ [e])).
Proof. reflexivity. Qed.

Lemma bind_raise {A B} (e : exn) (k : A -> M B) env st :
  bind (raise_ e) k env st = (st, Err e).
Proof. reflexivity. Qed.

Lemma requests_of_app tr tr' :
  requests_of (tr ++ tr') = requests_of tr ++ requests_of tr'.
Proof.
  induction tr as [|[r o|l|o] tr IH]; simpl; [done| |done|done].
  by rewrite IH.
Qed.

Lemma interact_run r env st :
  interact r env st =
    (mkState (env (trace st) r (world st)).1
       (trace st ++ [Interaction r (env (trace st) r (world st)).2]),
     match (env (trace st) r (world st)).2 with
     | Val v => Ok v
     | Exn e => Err e
     end).
Proof. unfold interact. by destruct (env (trace st) r (world st)). Qed.

Lemma bind_interact {B} (r : request) (k : value -> M B) env st :
  bind (interact r) k env st =
    match (env (trace st) r (world st)).2 with
    | Val v =>
        k v env (mkState (env (trace st) r (world st)).1
                   (trace st ++ [Interaction r (Val v)]))
    | Exn e =>
        (mkState (env (trace st) r (world st)).1
           (trace st ++ [Interaction r (Exn e)]), Err e)
    end.
Proof.
  unfold bind. rewrite interact_run.
  by destruct (env (trace st) r (world st)) as [w [v|e]].
Qed.

Lemma bind_if {A B} (b : bool) (m1 m2 : M A) (k : A -> M B) env st :
  bind (if b then m1 else m2) k env st =
    if b then bind m1 k env st else bind m2 k env st.
Proof. by destruct b. Qed.

Lemma run_ret {A} (a : A) env st : ret a env st = (st, Ok a).
Proof. reflexivity. Qed.

Lemma run_raise {A} (e : exn) env st : @raise_ A e env st = (st, Err e).
Proof. reflexivity. Qed.

Create HintDb py discriminated.
Create Rewrite HintDb py.
#[global] Hint Rewrite @bind_bind @bind_ret @bind_gets @bind_modify @bind_emit
  @bind_raise @bind_interact @bind_if @run_ret @run_raise : py.
#[global] Hint Unfold the_context the_batcher update_context update_batcher
  cache_store should_cache info call assert_ : py.

(** One pass of simplification of a run: unfold the small wrappers, apply
    the laws above, project the state. *)
Ltac run_steps :=
  repeat (progress (autounfold with py; autorewrite with py;
                    cbn [world trace fst snd call_request])).

(** Case analysis on the answer of the environment that blocks the run. *)
Ltac answer :=
  match goal with
  | |- context [(?env ?tr ?r ?w).2] =>
      let w1 := fresh "w" in
      let v := fresh "v" in
      let e := fresh "e" in
      let E := fresh "E" in
      destruct (env tr r w) as [w1 [v|e]] eqn:E; cbn [fst snd]
  end.

Lemma last_snoc {A} (l : list A) (x : A) : last (l ++ [x]) = Some x.
Proof. by rewrite last_app. Qed.

Lemma snoc3 {A} (l : list A) x y z :
  ((l ++ [x]) ++ [y]) ++ [z] = l ++ [x; y; z].
Proof. by rewrite <- !app_assoc. Qed.

(** ** Futures *)

Lemma fut_state_insert w f g s :
  fut_state (set_futures (<[f := s]> (futures w)) w) g =
  if decide (f = g) then s else fut_state w g.
Proof.
  unfold fut_state. simpl. rewrite lookup_insert.
  destruct (decide (f = g)); done.
Qed.

Lemma set_result_pending f v env st :
  fut_state (world st) f = Pending ->
  set_result f v env st =
    (mkState (set_futures (<[f := Resolved v]> (futures (world st))) (world st))
       (trace st), Ok tt).
Proof. unfold set_result, bind, gets, modify. simpl. by intros ->. Qed.

Lemma set_result_done f v env st :
  fut_state (world st) f <> Pending ->
  set_result f v env st = (st, Err AssertionError).
Proof.
  unfold set_result, bind, gets, raise_. simpl.
  destruct (fut_state (world st) f); done.
Qed.

Lemma resolve_batchers l w : batchers (resolve l w) = batchers w.
Proof.
  revert w. induction l as [|[f v] l IH]; intros w; simpl; [done|].
  by rewrite IH.
Qed.

Lemma resolve_not_in l w g :
  g ∉ l.*1 -> fut_state (resolve l w) g = fut_state w g.
Proof.
  revert w. induction l as [|[f v] l IH]; intros w Hg; simpl; [done|].
  rewrite fmap_cons in Hg. apply not_elem_of_cons in Hg as [Hne Hg].
  rewrite IH by done. rewrite fut_state_insert.
  destruct (decide (f = g)); [by subst|done].
Qed.

Lemma resolve_lookup l w i f v :
  NoDup l.*1 -> l !! i = Some (f, v) -> fut_state (resolve l w) f = Resolved v.
Proof.
  revert w i. induction l as [|[g u] l IH]; intros w i Hnd Hi; [done|].
  rewrite fmap_cons in Hnd. apply NoDup_cons in Hnd as [Hg Hnd].
  destruct i as [|i]; simpl in *.
  - injection Hi as -> ->. rewrite resolve_not_in by done.
    rewrite fut_state_insert. by destruct (decide (f = f)).
  - by eapply IH.
Qed.

(** A loop of [set_result] calls over distinct pending futures resolves
    each of them and does nothing else. *)
Lemma for_set_result (l : list (ref * value)) env st :
  NoDup l.*1 ->
  Forall (fun f => fut_state (world st) f = Pending) l.*1 ->
  for_ l (fun '(f, v) => set_result f v) env st =
    (mkState (resolve l (world st)) (trace st), Ok tt).
Proof.
  revert st. induction l as [|[f v] l IH]; intros st Hnd Hp; simpl.
  - unfold ret. by rewrite state_eta.
  - rewrite fmap_cons in Hnd, Hp. apply NoDup_cons in Hnd as [Hf Hnd].
    apply Forall_cons in Hp as [Hpf Hp].
    erewrite bind_Ok by (by apply set_result_pending).
    rewrite IH; [done|done|]. simpl.
    rewrite Forall_forall in Hp. apply Forall_forall. intros g Hin. simpl.
    rewrite fut_state_insert.
    destruct (decide (f = g)); [by subst|by apply Hp].
Qed.

Lemma for_fmap {A B} (g : A -> B) (l : list A) (body : B -> M unit) env st :
  for_ (g <$> l) body env st = for_ l (fun x => body (g x)) env st.
Proof.
  revert st. induction l as [|x l IH]; intros st; simpl; [done|].
  unfold bind. destruct (body (g x) env st) as [st1 [[]|e|]]; auto.
Qed.

Lemma for_ext {A} (l : list A) (body body' : A -> M unit) env st :
  (forall x, body x = body' x) -> for_ l body env st = for_ l body' env st.
Proof.
  intros Hb. revert st. induction l as [|x l IH]; intros st; simpl; [done|].
  unfold bind. rewrite Hb. destruct (body' x env st) as [st1 [[]|e|]]; auto.
Qed.

(** ** AutoBatcher.add *)

Lemma add_run self arg env st :
  add self arg env st =
    (mkState (after_add self arg (world st)) (trace st), Ok (next_id (world st))).
Proof.
  unfold add, after_add, new_Future, the_batcher, update_batcher, queue_task.
  unfold bind, gets, modify, ret. simpl.
  change (batcher (set_next_id _ (set_futures _ (world st))) self)
    with (batcher (world st) self).
  destruct (bool_decide (_todo (batcher (world st) self) = [])); simpl; reflexivity.
Qed.

Lemma batcher_set_batcher self b w : batcher (set_batcher self b w) self = b.
Proof. unfold batcher, set_batcher. simpl. by rewrite lookup_insert_eq. Qed.

Lemma todo_after_add self arg w :
  _todo (batcher (after_add self arg w) self) =
  _todo (batcher w self) ++ [(next_id w, arg)].
Proof. unfold after_add. by rewrite batcher_set_batcher. Qed.

Lemma ev_queue_after_add self arg w :
  ev_queue (after_add self arg w) =
  ev_queue w ++ (if bool_decide (_todo (batcher w self) = [])
                 then [(0%Z, bound_callback self)] else []).
Proof.
  unfold after_add. simpl.
  destruct (bool_decide (_todo (batcher w self) = [])); simpl; [done|].
  by rewrite app_nil_r.
Qed.

Lemma scheduled_app w self q :
  scheduled (set_ev_queue (ev_queue w ++ q) w) self =
  scheduled w self + length (filter (fun e => e.2 = bound_callback self) q).
Proof. unfold scheduled. simpl. by rewrite filter_app, length_app. Qed.

(** C2. Scheduling of the flush callback.  An [add] appends a flush
    callback to the event loop exactly when it finds the pending queue
    empty; an [add] on a non-empty queue leaves the event loop as it is.
    Hence any sequence of [add] calls schedules one callback if it started
    on an empty queue and none otherwise, and queues its requests in
    order. *)
Theorem add_schedules_once (self : ref) (env : Env) (st : State) :
  (forall arg,
     let st' := (add self arg env st).1 in
     ev_queue (world st') =
       ev_queue (world st) ++
       (if bool_decide (_todo (batcher (world st) self) = [])
        then [(0%Z, bound_callback self)] else []) /\
     _todo (batcher (world st') self) <> []) /\
  (forall args,
     exists st' futs,
       add_all self args env st = (st', Ok futs) /\
       length futs = length args /\
       _todo (batcher (world st') self) =
         _todo (batcher (world st) self) ++ zip futs args /\
       ev_queue (world st') =
         ev_queue (world st) ++
         (if bool_decide (_todo (batcher (world st) self) = [])
             && negb (bool_decide (args = []))
          then [(0%Z, bound_callback self)] else []) /\
       scheduled (world st') self =
         scheduled (world st) self +
         (if bool_decide (_todo (batcher (world st) self) = [])
             && negb (bool_decide (args = []))
          then 1 else 0)).
Proof.
  split.
  - intros arg st'. subst st'. rewrite add_run. cbn [fst world].
    rewrite ev_queue_after_add, todo_after_add. split; [done|].
    by destruct (_todo (batcher (world st) self)).
  - intros args. revert st.
    induction args as [|arg args IH]; intros st.
    + exists st, []. simpl. rewrite andb_false_r, !app_nil_r.
      split_and!; auto.
    + destruct (IH (mkState (after_add self arg (world st)) (trace st)))
        as (st' & futs & Hrun & Hlen & Htodo & Hq & _).
      exists st', (next_id (world st) :: futs).
      cbn [world] in Htodo, Hq. cbn [add_all length zip zip_with].
      erewrite bind_Ok by apply add_run.
      erewrite bind_Ok by apply Hrun.
      rewrite todo_after_add in Htodo, Hq. rewrite ev_queue_after_add in Hq.
      assert (Hq' : ev_queue (world st') =
                ev_queue (world st) ++
                (if bool_decide (_todo (batcher (world st) self) = [])
                 then [(0%Z, bound_callback self)] else [])).
      { rewrite Hq. rewrite (bool_decide_eq_false_2 (_ ++ _ = [])).
        - simpl. by rewrite app_nil_r.
        - by destruct (_todo (batcher (world st) self)). }
      split_and!.
      * done.
      * by rewrite Hlen.
      * rewrite Htodo. by rewrite <- app_assoc.
      * rewrite Hq'. rewrite (bool_decide_eq_false_2 (_ :: _ = [])) by done.
        by rewrite andb_true_r.
      * unfold scheduled. rewrite Hq', filter_app, length_app.
        rewrite (bool_decide_eq_false_2 (_ :: _ = [])) by done.
        rewrite andb_true_r.
        destruct (bool_decide (_todo (batcher (world st) self) = []));
          simpl; [|done].
        rewrite filter_cons. simpl. by case_decide.
Qed.

Lemma next_id_after_add self arg w :
  next_id (after_add self arg w) = S (next_id w).
Proof.
  unfold after_add. simpl.
  by destruct (bool_decide (_todo (batcher w self) = [])).
Qed.

Lemma fut_state_after_add self arg w g :
  fut_state (after_add self arg w) g =
  if decide (next_id w = g) then Pending else fut_state w g.
Proof.
  unfold after_add, fut_state. simpl.
  destruct (bool_decide (_todo (batcher w self) = [])); simpl;
    rewrite lookup_insert; by destruct (decide (next_id w = g)).
Qed.

(** A sequence of [add] calls hands out consecutive new futures. *)
Lemma add_all_run self args env st :
  add_all self args env st =
    (mkState (adds self args (world st)) (trace st),
     Ok (seq (next_id (world st)) (length args))).
Proof.
  revert st. induction args as [|arg args IH]; intros st; simpl.
  - unfold ret. by rewrite state_eta.
  - erewrite bind_Ok by apply add_run.
    erewrite bind_Ok by apply IH. cbn [world trace].
    rewrite next_id_after_add. reflexivity.
Qed.

Lemma adds_cons self arg args w :
  adds self (arg :: args) w = adds self args (after_add self arg w).
Proof. reflexivity. Qed.

Lemma adds_next_id self args w :
  next_id (adds self args w) = next_id w + length args.
Proof.
  revert w. induction args as [|arg args IH]; intros w.
  - simpl. lia.
  - rewrite adds_cons, IH, next_id_after_add. simpl. lia.
Qed.

Lemma adds_todo self args w :
  _todo (batcher (adds self args w) self) =
  _todo (batcher w self) ++ zip (seq (next_id w) (length args)) args.
Proof.
  revert w. induction args as [|arg args IH]; intros w.
  - simpl. by rewrite app_nil_r.
  - rewrite adds_cons, IH, todo_after_add, next_id_after_add.
    cbn [length seq zip zip_with]. by rewrite <- app_assoc.
Qed.

Lemma adds_method self args w :
  _method (batcher (adds self args w) self) = _method (batcher w self).
Proof.
  revert w. induction args as [|arg args IH]; intros w; [done|].
  rewrite adds_cons, IH. unfold after_add. by rewrite batcher_set_batcher.
Qed.

Lemma adds_options self args w :
  _options (batcher (adds self args w) self) = _options (batcher w self).
Proof.
  revert w. induction args as [|arg args IH]; intros w; [done|].
  rewrite adds_cons, IH. unfold after_add. by rewrite batcher_set_batcher.
Qed.

Lemma adds_ev_rpcs self args w : ev_rpcs (adds self args w) = ev_rpcs w.
Proof.
  revert w. induction args as [|arg args IH]; intros w; [done|].
  rewrite adds_cons, IH. unfold after_add. simpl.
  by destruct (bool_decide (_todo (batcher w self) = [])).
Qed.

Lemma adds_keeps_pending self args w g :
  g < next_id w -> fut_state w g = Pending ->
  fut_state (adds self args w) g = Pending.
Proof.
  revert w. induction args as [|arg args IH]; intros w Hlt Hp; [done|].
  rewrite adds_cons. apply IH.
  - rewrite next_id_after_add. lia.
  - rewrite fut_state_after_add. by destruct (decide _).
Qed.

Lemma adds_pending self args w g :
  next_id w <= g < next_id w + length args ->
  fut_state (adds self args w) g = Pending.
Proof.
  revert w. induction args as [|arg args IH]; intros w Hg;
    cbn [length] in Hg; [lia|].
  rewrite adds_cons.
  destruct (decide (g = next_id w)) as [->|Hne].
  - apply adds_keeps_pending.
    + rewrite next_id_after_add. lia.
    + rewrite fut_state_after_add. by destruct (decide _).
  - apply IH. rewrite next_id_after_add. lia.
Qed.

(** ** AutoBatcher._callback *)

Lemma callback_empty self env st :
  _todo (batcher (world st) self) = [] -> _callback self env st = (st, Ok tt).
Proof.
  intros H. unfold _callback, the_batcher, bind, gets. simpl.
  by rewrite bool_decide_eq_true_2.
Qed.

(** A dispatch issues one batched call with all pending arguments, in
    order, registers the marker and leaves the pending queue empty. *)
Lemma callback_dispatches self env st st' :
  _todo (batcher (world st) self) <> [] ->
  _callback self env st = (st', Ok tt) ->
  requests_of (trace st') =
    requests_of (trace st) ++
    [conn_call (call_batch (_method (batcher (world st) self)).1
                  (_method (batcher (world st) self)).2
                  (_options (batcher (world st) self))
                  (_todo (batcher (world st) self)).*2)] /\
  _todo (batcher (world st') self) = [] /\
  _running (batcher (world st') self) <> ∅.
Proof.
  intros Hne. unfold _callback, the_batcher.
  unfold bind at 1. unfold gets at 1. simpl.
  rewrite bool_decide_eq_false_2 by done.
  unfold info. unfold bind at 1. unfold emit at 1. simpl.
  unfold bind at 1. rewrite interact_run. simpl.
  destruct (env _ _ _) as [w1 [rpc|e]] eqn:He; simpl; [|done].
  unfold new_Future, update_batcher, queue_rpc, bind, gets, modify. simpl.
  intros [= <-]. simpl. split_and!.
  - rewrite !requests_of_app. simpl. by rewrite app_nil_r.
  - unfold batcher at 1, set_batcher. simpl. by rewrite lookup_insert_eq.
  - unfold batcher at 1, set_batcher. simpl. rewrite lookup_insert_eq. simpl.
    unfold batcher at 1. simpl. rewrite lookup_insert_eq. simpl.
    set_solver.
Qed.

Lemma batcher_set_next_id n w self :
  batcher (set_next_id n w) self = batcher w self.
Proof. reflexivity. Qed.

Lemma batcher_set_futures f w self :
  batcher (set_futures f w) self = batcher w self.
Proof. reflexivity. Qed.

Lemma batcher_set_ev_rpcs q w self :
  batcher (set_ev_rpcs q w) self = batcher w self.
Proof. reflexivity. Qed.

(** With a quiet connection, a dispatch registers the pending queue as it
    is, under a new pending marker that it puts in the running set. *)
Lemma callback_quiet self env st :
  _todo (batcher (world st) self) <> [] ->
  quiet_connection env ->
  exists st2 rpc,
    _callback self env st = (st2, Ok tt) /\
    ev_rpcs (world st2) =
      ev_rpcs (world st) ++
      [mkRpcEntry rpc self (_todo (batcher (world st) self))
         (next_id (world st))] /\
    (forall g, fut_state (world st2) g =
               if decide (next_id (world st) = g) then Pending
               else fut_state (world st) g) /\
    next_id (world st) ∈ _running (batcher (world st2) self) /\
    requests_of (trace st2) =
      requests_of (trace st) ++
      [conn_call (call_batch (_method (batcher (world st) self)).1
                    (_method (batcher (world st) self)).2
                    (_options (batcher (world st) self))
                    (_todo (batcher (world st) self)).*2)].
Proof.
  intros Hne Hq. unfold _callback. run_steps.
  rewrite bool_decide_eq_false_2 by done. run_steps.
  match goal with
  | |- context [env ?tr (conn_call ?c) ?w] => destruct (Hq tr c w) as [rpc E]
  end.
  rewrite E. cbn [fst snd].
  unfold new_Future, queue_rpc. unfold bind at 1. cbn [world trace].
  run_steps. eexists _, rpc. split; [reflexivity|]. cbn [world trace].
  rewrite ?batcher_set_ev_rpcs, ?batcher_set_batcher, ?batcher_set_next_id,
    ?batcher_set_futures.
  split_and!.
  - reflexivity.
  - intros g. unfold fut_state. simpl. rewrite lookup_insert.
    by destruct (decide (next_id (world st) = g)).
  - simpl. set_solver.
  - rewrite !requests_of_app. simpl. by rewrite app_nil_r.
Qed.

(** ** AutoBatcher._rpc_callback *)

Lemma fut_state_marker_done self running w g :
  fut_state (marker_done self running w) g =
  if decide (running = g) then Resolved VNone else fut_state w g.
Proof.
  unfold marker_done, fut_state. simpl. rewrite lookup_insert.
  destruct (decide (running = g)); done.
Qed.

Lemma rpc_callback_prefix self rpc todo running env st :
  fut_state (world st) running = Pending ->
  running ∈ _running (batcher (world st) self) ->
  _rpc_callback self rpc todo running env st =
  (values <- get_result rpc ;;
   if bool_decide (values = obj VNone)
   then for_ todo (fun '(fut, arg) => set_result fut VNone)
   else
     vs <- iterate values ;;
     for_ (zip todo vs) (fun '((fut, arg), val) => set_result fut val))
    env (mkState (marker_done self running (world st)) (trace st)).
Proof.
  intros Hp Hin. unfold _rpc_callback.
  erewrite bind_Ok by (by apply set_result_pending).
  unfold the_batcher, update_batcher.
  unfold bind at 1. unfold gets at 1. simpl.
  change (batcher (set_futures _ (world st)) self) with (batcher (world st) self).
  rewrite bool_decide_eq_true_2 by done.
  unfold bind at 1. unfold bind at 1. unfold modify at 1. simpl. done.
Qed.

Lemma for_todo_none (todo : list (ref * value)) env st :
  for_ todo (fun '(fut, arg) => set_result fut VNone) env st =
  for_ ((fun p : ref * value => (p.1, VNone)) <$> todo)
       (fun '(f, v) => set_result f v) env st.
Proof. rewrite for_fmap. apply for_ext. by intros []. Qed.

Lemma for_todo_zip (todo : list (ref * value)) (vs : list value) env st :
  for_ (zip todo vs) (fun '((fut, arg), val) => set_result fut val) env st =
  for_ ((fun p : ref * value * value => (p.1.1, p.2)) <$> zip todo vs)
       (fun '(f, v) => set_result f v) env st.
Proof. rewrite for_fmap. apply for_ext. by intros [[] ?]. Qed.

Lemma zip_targets (todo : list (ref * value)) (vs : list value) :
  length vs = length todo ->
  ((fun p : ref * value * value => (p.1.1, p.2)) <$> zip todo vs).*1 = todo.*1.
Proof.
  revert vs. induction todo as [|[f a] todo IH]; intros [|v vs] Hl;
    simpl in *; try done.
  f_equal. apply IH. lia.
Qed.

Lemma zip_lookup (todo : list (ref * value)) (vs : list value) i f a v :
  todo !! i = Some (f, a) -> vs !! i = Some v ->
  ((fun p : ref * value * value => (p.1.1, p.2)) <$> zip todo vs) !! i
  = Some (f, v).
Proof.
  revert vs i. induction todo as [|[g b] todo IH]; intros [|u vs] [|i] Ht Hv;
    simpl in *; try done.
  - by injection Ht as -> ->; injection Hv as ->.
  - by apply IH.
Qed.

(** The completion callback on a dispatched batch whose futures are
    distinct and pending and whose marker is in the running set. *)
Lemma rpc_callback_resolves (self running : ref)
    (todo : list (ref * value)) (env : Env) (st : State) :
  NoDup (running :: todo.*1) ->
  Forall (fun f => fut_state (world st) f = Pending) (running :: todo.*1) ->
  running ∈ _running (batcher (world st) self) ->
  (forall vs, length vs = length todo ->
     exists st',
       _rpc_callback self (returns (obj_list vs)) todo running env st
         = (st', Ok tt) /\
       forall i fut arg val,
         todo !! i = Some (fut, arg) -> vs !! i = Some val ->
         fut_state (world st') fut = Resolved val) /\
  (exists st',
     _rpc_callback self (returns (obj VNone)) todo running env st
       = (st', Ok tt) /\
     Forall (fun fut => fut_state (world st') fut = Resolved VNone) todo.*1).
Proof.
  intros Hnd Hp Hin.
  apply NoDup_cons in Hnd as [Hr Hnd]. apply Forall_cons in Hp as [Hpr Hp].
  assert (Hp' : Forall (fun f =>
            fut_state (marker_done self running (world st)) f = Pending) todo.*1).
  { rewrite Forall_forall in Hp. apply Forall_forall. intros g Hg.
    rewrite fut_state_marker_done.
    destruct (decide (running = g)); [by subst|by apply Hp]. }
  split.
  - intros vs Hlen. eexists. split.
    + rewrite rpc_callback_prefix by done.
      unfold get_result. unfold bind at 1. unfold ret at 1.
      rewrite bool_decide_eq_false_2 by done.
      unfold iterate. unfold bind at 1. unfold ret at 1.
      rewrite for_todo_zip. apply for_set_result; simpl.
      * by rewrite zip_targets.
      * by rewrite zip_targets.
    + intros i fut arg val Ht Hv. simpl.
      eapply resolve_lookup; [|by eapply zip_lookup].
      by rewrite zip_targets.
  - eexists. split.
    + rewrite rpc_callback_prefix by done.
      unfold get_result. unfold bind at 1. unfold ret at 1.
      rewrite bool_decide_eq_true_2 by done.
      rewrite for_todo_none. apply for_set_result; simpl.
      * by rewrite <- list_fmap_compose.
      * by rewrite <- list_fmap_compose.
    + simpl. apply Forall_forall. intros fut Hfut.
      apply list_elem_of_fmap in Hfut as [[f a] [-> Hfa]].
      apply list_elem_of_lookup in Hfa as [i Hi].
      eapply (resolve_lookup _ _ i).
      * by rewrite <- list_fmap_compose.
      * rewrite list_lookup_fmap, Hi. done.
Qed.

Example batch3_dispatched :
  ev_rpcs (world st3) = [mkRpcEntry (VRpc 1) 0 todo3 4] /\
  requests_of (trace st3) =
    [conn_call (call_batch (Conn 1) async_get None
                  [key_of "A"; key_of "B"; key_of "C"])].
Proof. split; vm_compute; reflexivity. Qed.

(** C1. Redistribution of a batch result.  For a dispatched batch whose
    futures are distinct and pending and whose marker is in the running
    set: when the RPC yields a list as long as the batch, the i-th future
    is resolved with the i-th value, for every i; when it yields None (the
    delete-style result), every future is resolved with None.  End to
    end: the requests handed to [add] on an empty queue are dispatched by
    [_callback] in one batched call with the arguments in submission
    order, and once the RPC completes with as many values, the future that
    the i-th [add] returned holds the i-th value. *)
Theorem rpc_callback_redistributes (self : ref) (env : Env) (st : State) :
  (forall running todo,
     NoDup (running :: todo.*1) ->
     Forall (fun f => fut_state (world st) f = Pending) (running :: todo.*1) ->
     running ∈ _running (batcher (world st) self) ->
     (forall vs, length vs = length todo ->
        exists st',
          _rpc_callback self (returns (obj_list vs)) todo running env st
            = (st', Ok tt) /\
          forall i fut arg val,
            todo !! i = Some (fut, arg) -> vs !! i = Some val ->
            fut_state (world st') fut = Resolved val) /\
     (exists st',
        _rpc_callback self (returns (obj VNone)) todo running env st
          = (st', Ok tt) /\
        Forall (fun fut => fut_state (world st') fut = Resolved VNone)
          todo.*1)) /\
  (forall args vs,
     quiet_connection env ->
     _todo (batcher (world st) self) = [] ->
     args <> [] ->
     length vs = length args ->
     exists st1 futs st2 entry,
       add_all self args env st = (st1, Ok futs) /\
       _callback self env st1 = (st2, Ok tt) /\
       requests_of (trace st2) =
         requests_of (trace st) ++
         [conn_call (call_batch (_method (batcher (world st) self)).1
                       (_method (batcher (world st) self)).2
                       (_options (batcher (world st) self)) args)] /\
       ev_rpcs (world st2) = ev_rpcs (world st) ++ [entry] /\
       q_self entry = self /\
       q_todo entry = zip futs args /\
       (exists st3,
          _rpc_callback self (returns (obj_list vs)) (q_todo entry)
            (q_running entry) env st2 = (st3, Ok tt) /\
          forall i fut val,
            futs !! i = Some fut -> vs !! i = Some val ->
            fut_state (world st3) fut = Resolved val) /\
       (exists st3,
          _rpc_callback self (returns (obj VNone)) (q_todo entry)
            (q_running entry) env st2 = (st3, Ok tt) /\
          Forall (fun fut => fut_state (world st3) fut = Resolved VNone)
            futs)).
Proof.
  split; [intros; by apply rpc_callback_resolves|].
  intros args vs Hq Ht Hargs Hlen.
  pose proof (add_all_run self args env st) as Hadd.
  set (st1 := mkState (adds self args (world st)) (trace st)) in *.
  set (futs := seq (next_id (world st)) (length args)) in *.
  assert (Htodo : _todo (batcher (world st1) self) = zip futs args).
  { subst st1 futs. cbn [world]. by rewrite adds_todo, Ht. }
  assert (Hne : _todo (batcher (world st1) self) <> []).
  { rewrite Htodo. subst futs. by destruct args. }
  destruct (callback_quiet self env st1 Hne Hq)
    as (st2 & rpc & Hcb & Hq2 & Hf2 & Hr2 & Hreq).
  assert (Hfst : (zip futs args).*1 = futs).
  { apply fst_zip. subst futs. rewrite length_seq. lia. }
  assert (Hsnd : (zip futs args).*2 = args).
  { apply snd_zip. subst futs. rewrite length_seq. lia. }
  assert (Hnext : next_id (world st1) = next_id (world st) + length args).
  { subst st1. cbn [world]. apply adds_next_id. }
  destruct (rpc_callback_resolves self (next_id (world st1))
              (zip futs args) env st2) as [Hlist Hnone].
  - constructor.
    + rewrite Hfst. subst futs. rewrite elem_of_seq. lia.
    + rewrite Hfst. apply NoDup_seq.
  - constructor.
    + rewrite Hf2. by destruct (decide _).
    + rewrite Hfst. apply Forall_forall. intros g Hg.
      rewrite Hf2. destruct (decide _); [done|].
      subst futs st1. cbn [world]. apply adds_pending.
      apply elem_of_seq in Hg. lia.
  - exact Hr2.
  - destruct (Hlist vs) as (st3 & Hrun & Hres).
    { rewrite length_zip, Hlen. subst futs. rewrite length_seq. lia. }
    destruct Hnone as (st3' & Hrun' & Hres').
    exists st1, futs, st2,
      (mkRpcEntry rpc self (zip futs args) (next_id (world st1))).
    split_and!; try done.
    + rewrite Hreq, Htodo, Hsnd. subst st1. cbn [world trace].
      by rewrite adds_method, adds_options.
    + rewrite Hq2, Htodo. subst st1. cbn [world]. by rewrite adds_ev_rpcs.
    + exists st3. split; [done|].
      intros i fut val Hi Hv.
      assert (Ha : exists arg, args !! i = Some arg).
      { apply lookup_lt_is_Some. apply lookup_lt_Some in Hv. lia. }
      destruct Ha as [arg Ha].
      eapply (Hres i fut arg val); [|done].
      apply lookup_zip_with_Some. eauto.
    + exists st3'. split; [done|]. by rewrite Hfst in Hres'.
Qed.

Lemma env0_quiet : quiet_connection env0.
Proof. intros tr c w. by eexists. Qed.

Lemma rpc_callback_redistributes_witness :
  (forall vs, length vs = length todo3 ->
     exists st',
       _rpc_callback 0 (returns (obj_list vs)) todo3 4 env0 st3 = (st', Ok tt) /\
       forall i fut arg val,
         todo3 !! i = Some (fut, arg) -> vs !! i = Some val ->
         fut_state (world st') fut = Resolved val) /\
  (exists st',
     _rpc_callback 0 (returns (obj VNone)) todo3 4 env0 st3 = (st', Ok tt) /\
     Forall (fun fut => fut_state (world st') fut = Resolved VNone) todo3.*1) /\
  (exists st1 futs st2 entry,
     add_all 0 [key_of "A"; key_of "B"; key_of "C"] env0 st_batcher
       = (st1, Ok futs) /\
     _callback 0 env0 st1 = (st2, Ok tt) /\
     requests_of (trace st2) =
       requests_of (trace st_batcher) ++
       [conn_call
          (call_batch (_method (batcher (world st_batcher) 0)).1
             (_method (batcher (world st_batcher) 0)).2
             (_options (batcher (world st_batcher) 0))
             [key_of "A"; key_of "B"; key_of "C"])] /\
     ev_rpcs (world st2) = ev_rpcs (world st_batcher) ++ [entry] /\
     q_self entry = 0 /\
     q_todo entry = zip futs [key_of "A"; key_of "B"; key_of "C"] /\
     (exists st3,
        _rpc_callback 0 (returns (obj_list [VEntity 7; VEntity 8; VEntity 9]))
          (q_todo entry) (q_running entry) env0 st2 = (st3, Ok tt) /\
        forall i fut val,
          futs !! i = Some fut ->
          [VEntity 7; VEntity 8; VEntity 9] !! i = Some val ->
          fut_state (world st3) fut = Resolved val) /\
     (exists st3,
        _rpc_callback 0 (returns (obj VNone)) (q_todo entry)
          (q_running entry) env0 st2 = (st3, Ok tt) /\
        Forall (fun fut => fut_state (world st3) fut = Resolved VNone) futs)).
Proof.
  destruct (rpc_callback_redistributes 0 env0 st3) as [H _].
  destruct (rpc_callback_redistributes 0 env0 st_batcher) as [_ H2].
  split_and!.
  - apply (H 4 todo3); compute_done.
  - apply (H 4 todo3); compute_done.
  - apply (H2 [key_of "A"; key_of "B"; key_of "C"]
              [VEntity 7; VEntity 8; VEntity 9]).
    + exact env0_quiet.
    + vm_compute; reflexivity.
    + discriminate.
    + reflexivity.
Defined.

(** When [rpc.get_result()] raises, the exception leaves [_rpc_callback]
    after the marker has been resolved, and no future of the batch is
    touched. *)
Lemma rpc_callback_raises (self running : ref) (todo : list (ref * value))
    (e : exn) (env : Env) (st : State) :
  running ∉ todo.*1 ->
  fut_state (world st) running = Pending ->
  Forall (fun f => fut_state (world st) f = Pending) todo.*1 ->
  running ∈ _running (batcher (world st) self) ->
  exists st',
    _rpc_callback self (raises e) todo running env st = (st', Err e) /\
    Forall (fun f => fut_state (world st') f = Pending) todo.*1.
Proof.
  intros Hr Hpr Hp Hin. eexists. split.
  - rewrite rpc_callback_prefix by done. reflexivity.
  - simpl. rewrite Forall_forall in Hp. apply Forall_forall. intros g Hg.
    rewrite fut_state_marker_done.
    destruct (decide (running = g)); [by subst|by apply Hp].
Qed.

(** C9. The batch of three gets dispatched in [st3], completed by an RPC
    whose result cannot be used.  If [get_result] raises, the exception
    leaves the completion callback and all three futures stay pending; the
    same happens when the result is not iterable; when the result list is
    too short the futures beyond its length stay pending.  No future is
    ever failed with the error. *)
Theorem rpc_failure_strands_futures :
  (let st' := (_rpc_callback 0 (raises (Failure "rpc")) todo3 4 env0 st3).1 in
   (_rpc_callback 0 (raises (Failure "rpc")) todo3 4 env0 st3).2
     = Err (Failure "rpc") /\
   fut_state (world st') 1 = Pending /\
   fut_state (world st') 2 = Pending /\
   fut_state (world st') 3 = Pending) /\
  (let st' := (_rpc_callback 0 (returns (obj (VInt 7))) todo3 4 env0 st3).1 in
   (_rpc_callback 0 (returns (obj (VInt 7))) todo3 4 env0 st3).2
     = Err TypeError /\
   fut_state (world st') 1 = Pending /\
   fut_state (world st') 2 = Pending /\
   fut_state (world st') 3 = Pending) /\
  (let st' := (_rpc_callback 0 (returns (obj_list [VEntity 9])) todo3 4
                 env0 st3).1 in
   (_rpc_callback 0 (returns (obj_list [VEntity 9])) todo3 4 env0 st3).2
     = Ok tt /\
   fut_state (world st') 1 = Resolved (VEntity 9) /\
   fut_state (world st') 2 = Pending /\
   fut_state (world st') 3 = Pending).
Proof. vm_compute. repeat split; reflexivity. Qed.

(** ** AutoBatcher.flush *)

Lemma await_each_requests rs env st st' :
  await_each rs env st = (st', Ok tt) ->
  requests_of (trace st') =
    requests_of (trace st) ++ ((fun r => yield_ (VFuture r)) <$> rs).
Proof.
  revert st. induction rs as [|r rs IH]; intros st; unfold await_each; simpl.
  - unfold ret. intros [= <-]. by rewrite app_nil_r.
  - intros H. apply bind_Ok_inv in H as ([] & st1 & H1 & H2).
    apply bind_Ok_inv in H1 as (v & st0 & H0 & H1).
    unfold ret in H1. injection H1 as <-.
    rewrite interact_run in H0. injection H0 as <- _.
    apply IH in H2. rewrite H2. simpl.
    rewrite requests_of_app. simpl. by rewrite <- app_assoc.
Qed.

Lemma flush_step fuel self env st :
  ~ idle (world st) self ->
  flush (S fuel) self env st =
  (dispatch self ;;
   b <- the_batcher self ;;
   await_each (elements (_running b)) ;;
   flush fuel self) env st.
Proof.
  intros Hni. cbn [flush]. unfold the_batcher at 1.
  rewrite bind_gets.
  destruct (bool_decide (_todo (batcher (world st) self) = [])) eqn:Ht;
    [|done].
  destruct (bool_decide (_running (batcher (world st) self) = ∅)) eqn:Hr;
    [|done].
  exfalso. apply Hni. split; by eapply bool_decide_eq_true_1.
Qed.

Lemma await_each_completes self env rs st :
  completes_waits self env ->
  exists st',
    await_each rs env st = (st', Ok tt) /\
    _running (batcher (world st') self)
      ⊆ _running (batcher (world st) self) ∖ list_to_set rs /\
    _todo (batcher (world st') self) = _todo (batcher (world st) self).
Proof.
  intros [_ Hw]. revert st. induction rs as [|r rs IH]; intros st.
  - exists st. unfold await_each. simpl. split_and!; [done|set_solver|done].
  - unfold await_each. cbn [for_]. run_steps.
    destruct (Hw (trace st) r (world st)) as ([v Hv] & Hrun & Htodo).
    cbn zeta in *. rewrite Hv.
    destruct (IH (mkState (env (trace st) (yield_ (VFuture r)) (world st)).1
                    (trace st ++ [Interaction (yield_ (VFuture r)) (Val v)])))
      as (st' & Hrest & Hr' & Ht').
    exists st'. run_steps. fold (await_each rs). rewrite Hrest.
    cbn [world] in *. split_and!; [done| |congruence].
    set_solver.
Qed.

Lemma flush_idle fuel self env st :
  idle (world st) self -> flush (S fuel) self env st = (st, Ok VNone).
Proof.
  intros [Ht Hr]. simpl. unfold the_batcher, bind, gets. simpl.
  by rewrite !bool_decide_eq_true_2 by done.
Qed.

(** When the scheduler completes the waits, [flush] returns within two
    iterations of its loop. *)
Lemma flush_terminates self env st :
  completes_waits self env ->
  exists st', flush 2 self env st = (st', Ok VNone) /\ idle (world st') self.
Proof.
  intros Hc.
  destruct (decide (idle (world st) self)) as [Hi|Hni].
  - exists st. split; [by apply flush_idle|done].
  - rewrite flush_step by done.
    assert (Hd : exists st1, dispatch self env st = (st1, Ok tt) /\
                   _todo (batcher (world st1) self) = []).
    { unfold dispatch. run_steps.
      destruct (decide (_todo (batcher (world st) self) = [])) as [Ht|Ht].
      - rewrite bool_decide_eq_true_2 by done. exists st. by run_steps.
      - rewrite bool_decide_eq_false_2 by done.
        destruct (callback_quiet self env st Ht (proj1 Hc))
          as (st2 & rpc & Hcb & _).
        exists st2. split; [done|].
        by destruct (callback_dispatches self env st st2 Ht Hcb)
          as (_ & ? & _). }
    destruct Hd as (st1 & Hd & Ht1).
    erewrite bind_Ok by exact Hd. run_steps.
    destruct (await_each_completes self env
                (elements (_running (batcher (world st1) self))) st1 Hc)
      as (st2 & Ha & Hr2 & Ht2).
    erewrite bind_Ok by exact Ha.
    assert (Hidle : idle (world st2) self).
    { split; [congruence|]. rewrite list_to_set_elements_L in Hr2.
      set_solver. }
    exists st2. split; [by apply flush_idle|done].
Qed.

(** C3. [flush] returns only from a state in which both the pending queue
    and the running set of its batcher are empty, and returns at once from
    such a state.  Otherwise one iteration of its loop dispatches the
    pending queue if it is not empty (one batched call with all pending
    arguments, after which the queue is empty), then waits for every
    member the running set has at that point, and goes on with the loop.
    When the scheduler completes those waits and no other task queues
    work meanwhile, [flush] does return, within two iterations. *)
Theorem flush_returns_when_idle (self : ref) :
  (forall fuel env st st' v,
     flush fuel self env st = (st', Ok v) ->
     v = VNone /\ idle (world st') self) /\
  (forall fuel env st,
     idle (world st) self -> flush (S fuel) self env st = (st, Ok VNone)) /\
  (forall fuel env st st1 st2,
     ~ idle (world st) self ->
     dispatch self env st = (st1, Ok tt) ->
     await_each (elements (_running (batcher (world st1) self))) env st1
       = (st2, Ok tt) ->
     flush (S fuel) self env st = flush fuel self env st2 /\
     (_todo (batcher (world st) self) = [] -> st1 = st) /\
     (_todo (batcher (world st) self) <> [] ->
      _todo (batcher (world st1) self) = [] /\
      requests_of (trace st1) =
        requests_of (trace st) ++
        [conn_call (call_batch (_method (batcher (world st) self)).1
                      (_method (batcher (world st) self)).2
                      (_options (batcher (world st) self))
                      (_todo (batcher (world st) self)).*2)]) /\
     requests_of (trace st2) =
       requests_of (trace st1) ++
       ((fun r => yield_ (VFuture r))
          <$> elements (_running (batcher (world st1) self)))) /\
  (forall env st,
     completes_waits self env ->
     exists st',
       flush 2 self env st = (st', Ok VNone) /\ idle (world st') self).
Proof.
  split_and!.
  - induction fuel as [|fuel IH]; intros env st st' v H; [done|].
    destruct (decide (idle (world st) self)) as [Hi|Hni].
    + rewrite flush_idle in H by done. by injection H as <- <-.
    + rewrite flush_step in H by done.
      apply bind_Ok_inv in H as (? & ? & _ & H).
      apply bind_Ok_inv in H as (? & ? & _ & H).
      apply bind_Ok_inv in H as (? & ? & _ & H). eauto.
  - intros fuel env st Hi. by apply flush_idle.
  - intros fuel env st st1 st2 Hni Hd Ha. split_and!.
    + rewrite flush_step by done.
      erewrite bind_Ok by exact Hd.
      unfold the_batcher. unfold bind at 1. unfold gets at 1.
      cbn [world]. by erewrite bind_Ok by exact Ha.
    + intros Ht. unfold dispatch, the_batcher, bind, gets in Hd. simpl in Hd.
      rewrite bool_decide_eq_true_2 in Hd by done. by injection Hd.
    + intros Ht. unfold dispatch, the_batcher in Hd.
      unfold bind at 1 in Hd. unfold gets at 1 in Hd. cbn [world] in Hd.
      rewrite bool_decide_eq_false_2 in Hd by done.
      eapply callback_dispatches in Hd as (? & ? & ?); done.
    + by eapply await_each_requests.
  - intros env st Hc. by apply flush_terminates.
Qed.

Lemma env_fair_completes self : completes_waits self (env_fair self).
Proof.
  split.
  - intros tr c w. by eexists.
  - intros tr r w. cbn zeta. simpl. rewrite batcher_set_batcher. simpl.
    split_and!; [by eexists|done|done].
Qed.

Lemma flush_returns_when_idle_witness :
  (let st' := (flush 2 0 env_loop st_queued).1 in
   idle (world st') 0 /\
   flush 1 0 env_loop st' = (st', Ok VNone) /\
   requests_of (trace st') =
     [conn_call (call_batch (Conn 1) async_get None
                   [key_of "A"; key_of "B"; key_of "C"]);
      yield_ (VFuture 4)]) /\
  (exists st',
     flush 2 0 (env_fair 0) st_queued = (st', Ok VNone) /\ idle (world st') 0).
Proof.
  destruct (flush_returns_when_idle 0) as (H1 & H2 & H3 & H4).
  assert (Hrun : flush 2 0 env_loop st_queued
                 = ((flush 2 0 env_loop st_queued).1, Ok VNone))
    by (vm_compute; reflexivity).
  destruct (H1 2 env_loop st_queued _ _ Hrun) as [_ Hidle].
  destruct (H3 1 env_loop st_queued
              (dispatch 0 env_loop st_queued).1
              (flush 2 0 env_loop st_queued).1) as (Hflush & _ & Hd & Hy).
  - intros [Ht _]. vm_compute in Ht. discriminate.
  - vm_compute; reflexivity.
  - vm_compute; reflexivity.
  - split.
    + intros st'. split_and!.
      * exact Hidle.
      * exact (H2 0 env_loop st' Hidle).
      * subst st'. rewrite Hy.
        destruct Hd as [_ Hd]; [by vm_compute|]. rewrite Hd.
        vm_compute. reflexivity.
    + exact (H4 (env_fair 0) st_queued (env_fair_completes 0)).
Defined.

(** ** Context.get, Context.put, Context.delete *)

(** A cache hit: [get] returns the cached object and changes nothing: no
    request is queued on the get batcher, nothing is scheduled, and the
    task does not even suspend. *)
Lemma get_hit self key v env st :
  _cache (context (world st) self) !! key = Some v ->
  get self key env st = (st, Ok v).
Proof.
  intros H. unfold get, the_context, bind, gets. simpl. by rewrite H.
Qed.

(** A cache miss: [get] queues the key on the get batcher and suspends on
    the future that [add] returned. *)
Lemma get_miss self key env st :
  _cache (context (world st) self) !! key = None ->
  let st' := (get self key env st).1 in
  requests_of (trace st') =
    requests_of (trace st) ++ [yield_ (VFuture (next_id (world st)))].
Proof.
  intros H. unfold get, the_context. unfold bind at 1. unfold gets at 1.
  cbn [world]. rewrite H.
  erewrite bind_Ok by apply add_run.
  unfold bind at 1. rewrite interact_run. cbn [world trace].
  destruct (env _ _ _) as [w1 [entity|e]]; cbn [fst snd].
  - unfold should_cache, the_context, cache_store, update_context.
    unfold bind, gets, modify. cbn [world trace].
    destruct (_cache_policy _) as [policy|]; unfold ret; cbn [world trace].
    + destruct (policy key entity); cbn [fst trace];
        by rewrite requests_of_app.
    + cbn [fst trace]. by rewrite requests_of_app.
  - cbn [fst trace]. by rewrite requests_of_app.
Qed.

Lemma context_set_context self c w : context (set_context self c w) self = c.
Proof. unfold context, set_context. simpl. by rewrite lookup_insert_eq. Qed.

Lemma entity_set_entity e x w : entity (set_entity e x w) e = x.
Proof. unfold entity, set_entity. simpl. by rewrite lookup_insert_eq. Qed.

(** After [put] has resolved under the default policy, the entity carries
    the key the store returned and the cache maps that key to the entity. *)
Lemma put_caches self ent env st st' key :
  put self ent env st = (st', Ok key) ->
  _cache_policy (context (world st') self) = None ->
  ent_key (entity (world st') ent) = key /\
  _cache (context (world st') self) !! key = Some (VEntity ent).
Proof.
  unfold put, the_context. unfold bind at 1. unfold gets at 1. cbn [world].
  erewrite bind_Ok by apply add_run.
  unfold bind at 1. rewrite interact_run. cbn [world trace].
  destruct (env _ _ _) as [w1 [k|e]]; cbn [fst snd]; [|done].
  unfold bind at 1. unfold gets at 1. cbn [world].
  unfold should_cache, the_context, cache_store, update_context, info.
  destruct (bool_decide (ent_key (entity w1 ent) ≠ k)) eqn:Hk.
  - unfold bind, gets, modify, emit. cbn [world trace].
    change (context (set_entity ent _ w1) self) with (context w1 self).
    destruct (_cache_policy (context w1 self)) as [policy|] eqn:Hp;
      unfold ret; cbn [world trace].
    + destruct (policy k (VEntity ent)); intros [= <- <-]; cbn [world];
        rewrite ?context_set_context; cbn;
        change (context (set_entity ent _ w1) self) with (context w1 self);
        by rewrite Hp.
    + intros [= <- <-] _. cbn [world]. rewrite context_set_context. cbn.
      split; [|by rewrite lookup_insert_eq].
      change (entity (set_context self _ ?w) ent) with (entity w ent).
      by rewrite entity_set_entity.
  - apply bool_decide_eq_false_1 in Hk. apply dec_stable in Hk.
    unfold bind, gets, modify, ret. cbn [world trace].
    destruct (_cache_policy (context w1 self)) as [policy|] eqn:Hp;
      cbn [world trace].
    + destruct (policy k (VEntity ent)); intros [= <- <-]; cbn [world];
        rewrite ?context_set_context; cbn; by rewrite Hp.
    + intros [= <- <-] _. cbn [world]. rewrite context_set_context. cbn.
      split; [|by rewrite lookup_insert_eq].
      done.
Qed.

Lemma context_after_add b arg w self :
  context (after_add b arg w) self = context w self.
Proof.
  unfold after_add, context. simpl.
  by destruct (bool_decide (_todo (batcher w b) = [])).
Qed.

(** What [delete] leaves in the cache: the entry of the key as it was when
    the task was resumed, turned into a tombstone if there was one. *)
Lemma delete_run self key env st st' r :
  delete self key env st = (st', Ok r) ->
  let b := _delete_batcher (context (world st) self) in
  let w1 := (env (trace st) (yield_ (VFuture (next_id (world st))))
               (after_add b key (world st))).1 in
  r = VNone /\
  _cache (context (world st') self) !! key =
    (if bool_decide (is_Some (_cache (context w1 self) !! key))
     then Some VNone else None).
Proof.
  unfold delete, the_context. unfold bind at 1. unfold gets at 1. cbn [world].
  erewrite bind_Ok by apply add_run.
  unfold bind at 1. rewrite interact_run. cbn [world trace].
  destruct (env _ _ _) as [w1 [k|e]]; cbn [fst snd]; [|done].
  unfold cache_store, update_context, bind, gets, modify, ret. cbn [world trace].
  destruct (bool_decide (is_Some (_cache (context w1 self) !! key))) eqn:Hc;
    intros [= <- <-]; cbn [world]; split; try done.
  - rewrite context_set_context. cbn. by rewrite lookup_insert_eq.
  - apply bool_decide_eq_false_1 in Hc.
    by apply eq_None_not_Some.
Qed.

(** C4 (amended). Cache round trip.  After [put(e)] has resolved under the
    default policy, [get(e.key)] returns [e] at once: the state is left as
    it was, so no request is queued and nothing is awaited.  After
    [delete(k)] has resolved, the cache holds for [k] either a tombstone
    or nothing.  It holds a tombstone exactly when [k] had an entry when
    the delete task was resumed (exactly when it had one before the call,
    if no other task touched the cache meanwhile); [get(k)] then returns
    None at once.  When the cache holds nothing for [k], [get(k)] queues
    the key on the get batcher and waits for the answer. *)
Theorem cache_round_trip (self : ref) (env : Env) (st st' : State) :
  (forall ent key,
     put self ent env st = (st', Ok key) ->
     _cache_policy (context (world st') self) = None ->
     forall env',
       get self (ent_key (entity (world st') ent)) env' st'
         = (st', Ok (VEntity ent))) /\
  (forall key r,
     delete self key env st = (st', Ok r) ->
     (_cache (context (world st') self) !! key = Some VNone \/
      _cache (context (world st') self) !! key = None) /\
     (_cache (context (world st') self) !! key = Some VNone ->
      forall env', get self key env' st' = (st', Ok VNone)) /\
     (_cache (context (world st') self) !! key = None ->
      forall env',
        requests_of (trace (get self key env' st').1) =
          requests_of (trace st') ++ [yield_ (VFuture (next_id (world st')))]) /\
     ((forall tr q w,
         _cache (context (env tr q w).1 self) = _cache (context w self)) ->
      (_cache (context (world st') self) !! key = Some VNone <->
       is_Some (_cache (context (world st) self) !! key)))).
Proof.
  split.
  - intros ent key Hput Hpol env'.
    destruct (put_caches _ _ _ _ _ _ Hput Hpol) as [-> Hc].
    by apply get_hit.
  - intros key r Hdel.
    destruct (delete_run _ _ _ _ _ _ Hdel) as [-> Hc]. cbn zeta in Hc.
    split_and!.
    + rewrite Hc. case_bool_decide; auto.
    + intros H env'. by apply get_hit.
    + intros H env'. by apply get_miss.
    + intros Hframe. rewrite Hc. clear Hc.
      rewrite Hframe, context_after_add.
      case_bool_decide as Hx; split; done.
Qed.

Lemma delete_then_get_counterexample :
  ((self <- Context_init None ;; delete self (key_of "A"))
     env_live (mkState world0 [])).2 = Ok VNone /\
  (get 0 (key_of "A") env_live st_deleted).2 = Ok (VEntity 7) /\
  get 0 (key_of "A") env_live st_deleted <> (st_deleted, Ok VNone) /\
  _todo (batcher (world (get 0 (key_of "A") env_live st_deleted).1) 1)
    = [(5, key_of "A")] /\
  requests_of (trace (get 0 (key_of "A") env_live st_deleted).1) =
    requests_of (trace st_deleted) ++ [yield_ (VFuture 5)].
Proof.
  split_and!; try (vm_compute; reflexivity).
  intros H. apply (f_equal snd) in H. vm_compute in H. discriminate.
Qed.

Lemma cache_round_trip_witness :
  get 0 (ent_key (entity (world st_stored) 4)) env0 st_stored
    = (st_stored, Ok (VEntity 4)) /\
  get 0 (key_of "A") env0 st_removed = (st_removed, Ok VNone).
Proof.
  split.
  - destruct (cache_round_trip 0 env_key st_ctx st_stored) as [Hput _].
    apply (Hput 4 (key_of "A")); vm_compute; reflexivity.
  - destruct (cache_round_trip 0 env_key st_stored st_removed) as [_ Hdel].
    destruct (Hdel (key_of "A") VNone) as (_ & Hget & _).
    + vm_compute; reflexivity.
    + apply Hget. vm_compute; reflexivity.
Defined.

(** ** Context.get_or_insert *)

(** C10. [get_or_insert] asserts that [name] is a non-empty string before
    anything else: for any other [name] the task fails with
    AssertionError in the state it was called in (no key is built, no
    task is started, no request is made).  For a non-empty string the
    assertion passes and the first thing the task does is to call
    [self.get] on the key built from the parent path and (kind, name). *)
Theorem get_or_insert_asserts_name (self : ref) (model_class : string)
    (parent : option Key) (kwds : list (string * value)) (env : Env)
    (st : State) :
  (forall name,
     is_basestring name && truthy name = false ->
     get_or_insert self model_class name parent kwds env st
       = (st, Err AssertionError)) /\
  (forall s,
     s <> "" ->
     assert_ (is_basestring (VStr s) && truthy (VStr s)) env st = (st, Ok tt) /\
     exists answer rest,
       trace (get_or_insert self model_class (VStr s) parent kwds env st).1 =
         trace st ++
         Interaction
           (start_task
              (task_get self
                 (VKey (mkKey (app_id (world st))
                          (match parent with None => [] | Some p => pairs p end
                           ++ [(model_class, inr s)])))))
           answer :: rest).
Proof.
  split.
  - intros name Hname. unfold get_or_insert. rewrite Hname. reflexivity.
  - intros s Hs.
    assert (Hok : is_basestring (VStr s) && truthy (VStr s) = true).
    { simpl. destruct s; [done|reflexivity]. }
    split; [by rewrite Hok|].
    unfold get_or_insert. rewrite Hok.
    unfold assert_. unfold bind at 1. unfold ret at 1.
    unfold bind at 1. unfold gets at 1. cbn [world name_part].
    set (key := VKey _).
    unfold bind at 1. rewrite interact_run. cbn [world trace].
    destruct (env (trace st) (start_task (task_get self key)) (world st))
      as [w1 [fut|e]] eqn:E1; cbn [fst snd].
    + unfold bind at 1. rewrite interact_run. cbn [world trace].
      destruct (env _ (yield_ fut) w1) as [w2 [ent|e]] eqn:E2; cbn [fst snd].
      * destruct (bool_decide (ent = VNone)).
        -- unfold bind at 1. rewrite interact_run. cbn [world trace].
           destruct (env _ _ w2) as [w3 [fut2|e]] eqn:E3; cbn [fst snd].
           ++ unfold bind at 1. rewrite interact_run. cbn [world trace].
              destruct (env _ _ w3) as [w4 [ent2|e]] eqn:E4; cbn [fst snd];
                unfold ret; cbn [fst trace]; rewrite <- !app_assoc;
                eexists _, _; reflexivity.
           ++ rewrite <- !app_assoc. eexists _, _; reflexivity.
        -- unfold ret. cbn [fst trace]. rewrite <- !app_assoc.
           eexists _, _; reflexivity.
      * rewrite <- !app_assoc. eexists _, _; reflexivity.
    + eexists _, _; reflexivity.
Qed.

Lemma get_or_insert_asserts_name_witness :
  get_or_insert 0 "Kind" (VStr "") None [] env0 st_ctx
    = (st_ctx, Err AssertionError) /\
  get_or_insert 0 "Kind" (VInt 5) None [] env0 st_ctx
    = (st_ctx, Err AssertionError) /\
  exists answer rest,
    trace (get_or_insert 0 "Kind" (VStr "A") None [] env0 st_ctx).1 =
      trace st_ctx ++
      Interaction (start_task (task_get 0 (key_of "A"))) answer :: rest.
Proof.
  destruct (get_or_insert_asserts_name 0 "Kind" None [] env0 st_ctx)
    as [Hbad Hgood].
  split_and!.
  - apply Hbad. reflexivity.
  - apply Hbad. reflexivity.
  - destruct (Hgood "A") as [_ H]; [discriminate|]. exact H.
Defined.

(** ** Context.map_query *)



(** ** Context.transaction *)

Lemma Context_init_run conn env st :
  Context_init (Some conn) env st =
    (mkState (with_Context conn (world st))
       (trace st ++ [Observed (constructed_Context (next_id (world st)) conn)]),
     Ok (next_id (world st))).
Proof. reflexivity. Qed.

Lemma bind_Context_init {B} conn (k : ref -> M B) env st :
  bind (Context_init (Some conn)) k env st =
    k (next_id (world st)) env
      (mkState (with_Context conn (world st))
         (trace st ++
          [Observed (constructed_Context (next_id (world st)) conn)])).
Proof. reflexivity. Qed.

Lemma try_finally_interact r (final : M unit) env st :
  try_finally (interact r) final env st =
    match (env (trace st) r (world st)).2 with
    | Val v =>
        (final ;; ret v) env
          (mkState (env (trace st) r (world st)).1
             (trace st ++ [Interaction r (Val v)]))
    | Exn e =>
        (final ;; raise_ e) env
          (mkState (env (trace st) r (world st)).1
             (trace st ++ [Interaction r (Exn e)]))
    end.
Proof.
  unfold try_finally. rewrite interact_run.
  by destruct (env (trace st) r (world st)) as [w [v|e]].
Qed.

(** Exploration of every path of a run: step, and split on each answer of
    the environment and on each test. *)
Ltac explore :=
  repeat first
    [ progress run_steps
    | rewrite bind_Context_init
    | progress unfold try_except, flush_all
    | rewrite try_finally_interact
    | answer
    | match goal with
      | |- context [if ?b then _ else _] => destruct b eqn:?
      end ].

Lemma begins_snoc tr e :
  begins (tr ++ [e]) =
  begins tr + match e with
              | Interaction r _ => if is_begin r then 1 else 0
              | _ => 0
              end.
Proof.
  unfold begins. rewrite requests_of_app, filter_app, length_app. f_equal.
  destruct e as [r o|l|o]; simpl; try done. rewrite filter_cons.
  by destruct (is_begin r).
Qed.

Lemma is_begin_call callback arg : is_begin (call_request callback arg) = false.
Proof. by destruct callback. Qed.

(** Every run of the loop body begins exactly one transaction. *)
Lemma attempt_begins self callback entity_group app_id env st :
  begins (trace (attempt self callback entity_group app_id env st).1)
  = begins (trace st) + 1.
Proof.
  unfold attempt. explore.
  all: rewrite ?begins_snoc; cbn [is_begin]; rewrite ?is_begin_call; lia.
Qed.

Lemma attempts_begins n self callback entity_group app_id env st :
  begins (trace (attempts n self callback entity_group app_id env st).1)
  <= begins (trace st) + n.
Proof.
  revert st. induction n as [|n IH]; intros st; simpl; [lia|].
  pose proof (attempt_begins self callback entity_group app_id env st) as Hb.
  unfold bind.
  destruct (attempt self callback entity_group app_id env st)
    as [st1 [[result|]|e|]]; simpl in *; try lia.
  specialize (IH st1). lia.
Qed.

Lemma flush_all_begins ctx env st :
  begins (trace (flush_all ctx env st).1) = begins (trace st).
Proof.
  unfold flush_all. explore.
  all: rewrite ?begins_snoc; cbn [is_begin]; lia.
Qed.

Lemma just_committed_snoc tr c v :
  just_committed (tr ++ [Interaction (conn_call (call_commit c)) (Val v)])
  = true.
Proof. unfold just_committed. by rewrite last_snoc. Qed.

(** Discharge a path on which the environment raised although it answers
    normally. *)
Ltac no_raise Hn :=
  match goal with
  | E : ?env ?tr ?r ?w = (_, Exn _) |- _ =>
      let H := fresh in
      destruct (Hn tr r w) as [? H]; rewrite E in H; discriminate H
  end.

(** Under an environment that answers normally, hands out futures and
    rejects every commit, one run of the loop body goes all the way to
    the commit and reaches the end of the body. *)
Lemma attempt_rejected self callback entity_group app_id env st :
  answers_normally env -> calls_return_futures env -> commits_rejected env ->
  exists st' evs,
    attempt self callback entity_group app_id env st = (st', Ok None) /\
    trace st' = trace st ++ evs /\
    rejected_attempt self callback entity_group app_id evs.
Proof.
  intros Hn Hf Hr. unfold attempt. destruct callback; explore.
  all: try no_raise Hn.
  all: try match goal with
    | E : ?en ?tr ?r ?w = (_, Val ?v), H : is_Future ?v = false |- _ =>
        let H' := fresh in
        destruct (Hf tr r w) as [? H'];
        rewrite E in H'; injection H' as ->; discriminate H
    end.
  all: try match goal with
    | E : ?en ?tr (yield_ ?r) ?w = (_, Val ?v), H : truthy ?v = true |- _ =>
        let H' := fresh in
        assert (H' : truthy v = false)
          by (apply (Hr tr r w v);
              [apply just_committed_snoc | by rewrite E]);
        congruence
    end.
  all: eexists _, _; (split; [reflexivity|]); cbn [trace]; split;
    [ rewrite <- !app_assoc; reflexivity
    | unfold rejected_attempt; do 16 eexists; split; [reflexivity|done] ].
Qed.

Lemma flush_all_normal ctx env st :
  answers_normally env ->
  exists st1 pre, flush_all ctx env st = (st1, Ok tt) /\ trace st1 = trace st ++ pre.
Proof.
  intros Hn. unfold flush_all. explore.
  all: try no_raise Hn.
  eexists _, _. split; [reflexivity|]. cbn [trace].
  rewrite <- !app_assoc. reflexivity.
Qed.

Lemma attempts_rejected n self callback entity_group app_id env st :
  answers_normally env -> calls_return_futures env -> commits_rejected env ->
  exists st' evss,
    attempts n self callback entity_group app_id env st
      = (st', Err could_not_commit) /\
    trace st' = trace st ++ concat evss /\
    length evss = n /\
    Forall (rejected_attempt self callback entity_group app_id) evss /\
    begins (trace st') = begins (trace st) + n.
Proof.
  intros Hn Hf Hr. revert st. induction n as [|n IH]; intros st.
  - exists st, []. simpl. rewrite app_nil_r. split_and!; auto.
  - destruct (attempt_rejected self callback entity_group app_id env st Hn Hf Hr)
      as (st1 & evs & Hrun & Htr & Hev).
    destruct (IH st1) as (st' & evss & Hrun' & Htr' & Hlen & Hall & Hb).
    exists st', (evs :: evss). cbn [attempts].
    erewrite bind_Ok by exact Hrun. split_and!.
    + exact Hrun'.
    + rewrite Htr', Htr. simpl. by rewrite <- app_assoc.
    + simpl. by rewrite Hlen.
    + by constructor.
    + rewrite Hb.
      pose proof (attempt_begins self callback entity_group app_id env st) as H1.
      rewrite Hrun in H1. simpl in H1. lia.
Qed.

(** C5. The retry bound of [transaction].  Whatever the collaborators do,
    at most [1 + max(0, retry)] transactions are begun.  When every
    collaborator answers normally and every commit is rejected, exactly
    that many attempts are made, four for [retry = 3]: each begins a
    transaction of its own, constructs a context of its own on a
    connection bound to that transaction, runs the callback, flushes and
    commits; after the last one the task fails with
    TransactionFailedError.  A constructed context is a new object with an
    empty cache. *)
Theorem transaction_retry_bound (self : ref) (callback : callable)
    (retry : Z) (entity_group : option Key) (env : Env) (st : State) :
  let n := Z.to_nat (1 + Z.max 0 retry) in
  begins (trace (transaction self callback retry entity_group env st).1)
    <= begins (trace st) + n /\
  (answers_normally env -> calls_return_futures env -> commits_rejected env ->
   exists st' app_id pre evss,
     transaction self callback retry entity_group env st
       = (st', Err could_not_commit) /\
     trace st' = trace st ++ pre ++ concat evss /\
     begins (trace st') = begins (trace st) + n /\
     length evss = n /\
     (retry = 3%Z -> length evss = 4) /\
     Forall (rejected_attempt self callback entity_group app_id) evss) /\
  (forall conn env1 st1,
     let c := next_id (world st1) in
     let st2 := (Context_init (Some conn) env1 st1).1 in
     (Context_init (Some conn) env1 st1).2 = Ok c /\
     next_id (world st2) = c + 4 /\
     _conn (context (world st2) c) = conn /\
     _cache (context (world st2) c) = ∅).
Proof.
  intros n. split_and!.
  - unfold transaction.
    set (get_app := match entity_group with Some _ => _ | None => _ end).
    assert (Happ : exists a, get_app env st = (st, Ok a)).
    { subst get_app. destruct entity_group; eexists; reflexivity. }
    destruct Happ as [a Happ]. erewrite bind_Ok by exact Happ.
    pose proof (flush_all_begins self env st) as Hfl.
    unfold bind at 1.
    destruct (flush_all self env st) as [st1 [[]|e|]]; cbn [fst] in *;
      try lia.
    pose proof (attempts_begins n self callback entity_group a env st1).
    subst n. lia.
  - intros Hn Hf Hr. unfold transaction.
    set (get_app := match entity_group with Some _ => _ | None => _ end).
    assert (Happ : exists a, get_app env st = (st, Ok a)).
    { subst get_app. destruct entity_group; eexists; reflexivity. }
    destruct Happ as [a Happ]. erewrite bind_Ok by exact Happ.
    destruct (flush_all_normal self env st Hn) as (st1 & pre & Hfl & Hpre).
    erewrite bind_Ok by exact Hfl.
    destruct (attempts_rejected n self callback entity_group a env st1 Hn Hf Hr)
      as (st' & evss & Hrun & Htr & Hlen & Hall & Hb).
    exists st', a, pre, evss. split_and!; auto.
    + rewrite Htr, Hpre. by rewrite <- app_assoc.
    + rewrite Hb. pose proof (flush_all_begins self env st) as H.
      rewrite Hfl in H. simpl in H. subst n. lia.
    + intros ->. rewrite Hlen. reflexivity.
  - intros conn env1 st1 c st2. subst c st2. rewrite Context_init_run.
    cbn [fst snd world]. split_and!; auto.
    + unfold with_Context. simpl. lia.
    + unfold with_Context. by rewrite context_set_context.
    + unfold with_Context. by rewrite context_set_context.
Qed.

(** Use what is known of the environment on the answers met on a path. *)
Ltac use_answers Hc Hy Ht Hf He :=
  repeat match goal with
  | E : ?en ?tr (conn_call ?c) ?w = (_, _) |- _ =>
      let H := fresh in
      destruct (Hc tr c w) as [? H]; rewrite E in H; cbn in H;
      first [discriminate H | injection H as ->]; clear E
  | E : ?en ?tr (yield_ (VRpc ?r)) ?w = (_, _) |- _ =>
      let H := fresh in
      destruct (Hy tr r w) as [? H]; rewrite E in H; cbn in H;
      first [discriminate H | clear H]; clear E
  | E : ?en ?tr (yield_tuple ?vs) ?w = (_, _) |- _ =>
      let H := fresh in
      destruct (Ht tr vs w) as [? H]; rewrite E in H; cbn in H;
      first [discriminate H | clear H]; clear E
  | E : ?en ?tr (start_task ?t) ?w = (_, _) |- _ =>
      let H := fresh in
      destruct (Hf tr (start_task t) w) as [? H]; rewrite E in H; cbn in H;
      first [discriminate H | injection H as ->]; clear E
  | E : ?en ?tr (call_user ?i ?a) ?w = (_, _) |- _ =>
      let H := fresh in
      destruct (Hf tr (call_user i a) w) as [? H]; rewrite E in H; cbn in H;
      first [discriminate H | injection H as ->]; clear E
  | E : ?en ?tr (yield_ (VFuture ?f)) ?w = (_, _) |- _ =>
      let H := fresh in
      pose proof (He tr f w) as H; rewrite E in H; cbn in H;
      first [discriminate H | injection H as ->]; clear E
  end.

Lemma attempt_rolled_back self callback entity_group app_id e env st :
  rpcs_succeed env -> calls_return_futures env -> futures_fail e env ->
  exists st' evs,
    attempt self callback entity_group app_id env st = (st', Err e) /\
    trace st' = trace st ++ evs /\
    rolled_back_attempt self callback entity_group app_id e evs.
Proof.
  intros (Hc & Hy & Ht) Hf He. unfold attempt. destruct callback; explore.
  all: use_answers Hc Hy Ht Hf He.
  all: try discriminate.
  all: eexists _, _; (split; [reflexivity|]); cbn [trace]; split;
    [ rewrite <- !app_assoc; reflexivity
    | unfold rolled_back_attempt; do 15 eexists; reflexivity ].
Qed.


Lemma context_set_context_ne self c x w :
  self <> c -> context (set_context c x w) self = context w self.
Proof.
  intros H. unfold context, set_context. simpl. by rewrite lookup_insert_ne.
Qed.

Lemma context_with_Context self conn w :
  self < next_id w -> context (with_Context conn w) self = context w self.
Proof.
  intros H. unfold with_Context. rewrite context_set_context_ne by lia. done.
Qed.

Lemma next_id_with_Context conn w :
  next_id (with_Context conn w) = next_id w + 4.
Proof. unfold with_Context. simpl. lia. Qed.

Lemma updates_snoc tr e :
  updates (tr ++ [e]) = updates tr + (if is_update e then 1 else 0).
Proof.
  unfold updates. rewrite filter_app, length_app. f_equal.
  rewrite filter_cons. by destruct (is_update e).
Qed.

(** Record what a respectful environment guarantees for each of its
    moves on the path. *)
Ltac frame_facts Hr :=
  repeat match goal with
  | E : ?en ?tr ?r ?w = (_, _) |- _ =>
      let H := fresh in
      pose proof (Hr tr r w) as H; rewrite E in H; cbn [fst] in H;
      destruct H as [? ?]; clear E
  end.

Lemma attempt_frame self callback entity_group app_id env st :
  respects self env -> self < next_id (world st) ->
  let run := attempt self callback entity_group app_id env st in
  self < next_id (world run.1) /\
  match run.2 with
  | Ok (Some result) =>
      exists tctx pre c rpc ok,
        trace run.1 =
          pre ++ [Interaction (conn_call (call_commit c)) (Val rpc);
                  Interaction (yield_ rpc) (Val ok);
                  Observed (cache_update self tctx)] /\
        truthy ok = true /\
        updates pre = updates (trace st) /\
        tctx <> self /\
        _cache (context (world run.1) self) =
          _cache (context (world run.1) tctx) ∪ _cache (context (world st) self)
  | Ok None | Err _ =>
      _cache (context (world run.1) self) = _cache (context (world st) self) /\
      updates (trace run.1) = updates (trace st)
  | Unfinished => False
  end.
Proof.
  intros Hr Hlt run. subst run. unfold attempt. destruct callback; explore.
  all: frame_facts Hr.
  all: rewrite ?next_id_with_Context in *.
  all: rewrite ?context_with_Context in * by lia.
  all: cbn [fst snd world trace].
  all: try (split; [lia|]; split; [congruence|];
            rewrite ?updates_snoc; cbn [is_update]; lia).
  all: (split; [simpl; lia|]).
  all: eexists (next_id _), _, _, _, _; split_and!;
    [ apply snoc3
    | done
    | rewrite ?updates_snoc; cbn [is_update]; lia
    | lia
    | rewrite context_set_context; rewrite context_set_context_ne by lia;
      cbn [_cache set_cache]; f_equal; congruence ].
Qed.

Lemma flush_all_frame self ctx env st :
  respects self env -> self < next_id (world st) ->
  let run := flush_all ctx env st in
  self < next_id (world run.1) /\ untouched self st run.1 /\
  run.2 <> Unfinished.
Proof.
  intros Hr Hlt run. subst run. unfold flush_all, untouched. explore.
  all: frame_facts Hr.
  all: cbn [fst snd world trace].
  all: split; [lia|]; split; [|done]; split; [congruence|].
  all: rewrite ?updates_snoc; cbn [is_update]; lia.
Qed.

Lemma attempts_frame n self callback entity_group app_id env st :
  respects self env -> self < next_id (world st) ->
  let run := attempts n self callback entity_group app_id env st in
  match run.2 with
  | Ok _ => merged_once self st run.1
  | Err _ => untouched self st run.1
  | Unfinished => False
  end.
Proof.
  intros Hr. revert st. induction n as [|n IH]; intros st Hlt run; subst run.
  - simpl. by split.
  - cbn [attempts]. unfold bind.
    pose proof (attempt_frame self callback entity_group app_id env st Hr Hlt)
      as [Hlt1 H1]. cbn zeta in *.
    destruct (attempt self callback entity_group app_id env st)
      as [st1 [[result|]|e|]]; cbn [fst snd] in *; try done.
    destruct H1 as [Hc Hu]. specialize (IH st1 Hlt1). cbn zeta in IH.
    destruct (attempts n self callback entity_group app_id env st1)
      as [st2 [v|e|]]; cbn [fst snd] in *; try done.
    + destruct IH as (tctx & pre & c & rpc & ok & Ht & Hok & Hup & Hne & Hm).
      exists tctx, pre, c, rpc, ok. split_and!; try done; congruence.
    + destruct IH as [Hc2 Hu2]. split; congruence.
Qed.


Lemma env_reject_normal : answers_normally env_reject.
Proof.
  intros tr r w. destruct r; simpl; eauto.
  destruct (just_committed tr); eauto.
Qed.

Lemma env_reject_futures : calls_return_futures env_reject.
Proof. intros tr r w. destruct r; simpl; eauto. Qed.

Lemma env_reject_rejects : commits_rejected env_reject.
Proof.
  intros tr rpc w v Hc. simpl. rewrite Hc. by intros [= <-].
Qed.

Lemma env_fail_rpcs : rpcs_succeed env_fail.
Proof. split_and!; intros; simpl; eauto. Qed.

Lemma env_fail_futures : calls_return_futures env_fail.
Proof. intros tr r w. destruct r; simpl; eauto. Qed.

Lemma env_fail_fails : futures_fail (Failure "boom") env_fail.
Proof. by intros tr f w. Qed.

Lemma env_commit_respects : respects 0 env_commit.
Proof.
  intros tr r w. destruct r as [| | |v| | | | | | |]; simpl; try done.
  destruct v; simpl; try done.
  by rewrite context_set_context_ne.
Qed.

Lemma env_fail_respects : respects 0 env_fail.
Proof. intros tr r w. by destruct r. Qed.

Lemma transaction_retry_bound_witness :
  (transaction 0 (user_callable 0) 3 None env_reject st_ctx).2
    = Err could_not_commit /\
  begins (trace (transaction 0 (user_callable 0) 3 None env_reject st_ctx).1)
    = 4.
Proof.
  destruct (transaction_retry_bound 0 (user_callable 0) 3 None env_reject st_ctx)
    as (_ & Hex & _).
  destruct (Hex env_reject_normal env_reject_futures env_reject_rejects)
    as (st' & a & pre & evss & Hrun & _ & Hb & _).
  rewrite Hrun. split; [reflexivity|]. cbn [fst]. rewrite Hb.
  vm_compute. reflexivity.
Defined.



(** * Further properties of the code *)

(** ** AutoBatcher: dispatch and completion *)

Lemma callback_run self rpc w1 env st :
  _todo (batcher (world st) self) <> [] ->
  env (trace st ++ [batch_log self (world st)]) (batch_call self (world st))
    (world st) = (w1, Val rpc) ->
  _callback self env st =
    (mkState (after_dispatch self rpc w1)
       (trace st ++ [batch_log self (world st);
                     Interaction (batch_call self (world st)) (Val rpc)]),
     Ok tt).
Proof.
  intros Hne E. unfold _callback. run_steps.
  rewrite bool_decide_eq_false_2 by done. run_steps.
  unfold batch_log, batch_call in E. rewrite E. cbn [fst snd].
  unfold new_Future. unfold bind at 1. cbn [world trace].
  unfold queue_rpc. run_steps.
  rewrite <- app_assoc. reflexivity.
Qed.

Lemma callback_fails self e w1 env st :
  _todo (batcher (world st) self) <> [] ->
  env (trace st ++ [batch_log self (world st)]) (batch_call self (world st))
    (world st) = (w1, Exn e) ->
  _callback self env st =
    (mkState w1
       (trace st ++ [batch_log self (world st);
                     Interaction (batch_call self (world st)) (Exn e)]),
     Err e).
Proof.
  intros Hne E. unfold _callback. run_steps.
  rewrite bool_decide_eq_false_2 by done. run_steps.
  unfold batch_log, batch_call in E. rewrite E. cbn [fst snd].
  rewrite <- app_assoc. reflexivity.
Qed.

(** Whatever the connection answers, a dispatch from a non-empty queue
    makes one request: the batched call. *)
Lemma callback_request self env st :
  _todo (batcher (world st) self) <> [] ->
  requests_of (trace (_callback self env st).1) =
    requests_of (trace st) ++ [batch_call self (world st)].
Proof.
  intros Hne.
  destruct (env (trace st ++ [batch_log self (world st)])
              (batch_call self (world st)) (world st)) as [w1 [rpc|e]] eqn:E.
  - rewrite (callback_run _ _ _ _ _ Hne E). cbn [fst trace].
    rewrite requests_of_app. simpl. done.
  - rewrite (callback_fails _ _ _ _ _ Hne E). cbn [fst trace].
    rewrite requests_of_app. simpl. done.
Qed.

Lemma batcher_after_dispatch self rpc w :
  batcher (after_dispatch self rpc w) self =
    mkAutoBatcher [] ({[next_id w]} ∪ _running (batcher w self))
      (_method (batcher w self)) (_options (batcher w self)).
Proof.
  unfold after_dispatch. rewrite batcher_set_batcher.
  rewrite batcher_set_ev_rpcs, batcher_set_batcher. reflexivity.
Qed.

(** X1. No double dispatch.  When [_callback] has returned normally the
    pending queue of its batcher is empty, and running [_callback] again
    at once (the callback that [add] scheduled, run after [flush] has
    already dispatched the queue) does nothing: it returns in the same
    state, so no second call is made for the same requests. *)
Theorem callback_dispatches_once (self : ref) (env : Env) (st st' : State) :
  _callback self env st = (st', Ok tt) ->
  _todo (batcher (world st') self) = [] /\
  forall env', _callback self env' st' = (st', Ok tt).
Proof.
  intros H.
  assert (Ht : _todo (batcher (world st') self) = []).
  { destruct (decide (_todo (batcher (world st) self) = [])) as [He|Hne].
    - rewrite callback_empty in H by done. by injection H as <-.
    - by destruct (callback_dispatches self env st st' Hne H) as (_ & ? & _). }
  split; [done|]. intros env'. by apply callback_empty.
Qed.

Lemma callback_dispatches_once_witness :
  _todo (batcher (world (_callback 0 env0 st_queued).1) 0) = [] /\
  forall env',
    _callback 0 env' (_callback 0 env0 st_queued).1
      = ((_callback 0 env0 st_queued).1, Ok tt).
Proof.
  apply (callback_dispatches_once 0 env0 st_queued). vm_compute. reflexivity.
Defined.

(** X2. A failing connection.  If the connection method raises while
    [_callback] dispatches a non-empty queue, [_callback] raises that
    exception right after its log record and before it has changed
    anything: queue, running set and futures are as before and no
    completion callback is registered.  [flush] fails in the same way.
    As the queue is still non-empty, a later [add] appends its request but
    schedules no callback. *)
Theorem callback_failure_keeps_batch (self : ref) (e : exn) (env : Env)
    (st : State) :
  _todo (batcher (world st) self) <> [] ->
  env (trace st ++ [batch_log self (world st)]) (batch_call self (world st))
    (world st) = (world st, Exn e) ->
  let st' :=
    mkState (world st)
      (trace st ++ [batch_log self (world st);
                    Interaction (batch_call self (world st)) (Exn e)]) in
  _callback self env st = (st', Err e) /\
  (forall fuel, flush (S fuel) self env st = (st', Err e)) /\
  (forall arg env',
     ev_queue (world (add self arg env' st').1) = ev_queue (world st) /\
     _todo (batcher (world (add self arg env' st').1) self) =
       _todo (batcher (world st) self) ++ [(next_id (world st), arg)]).
Proof.
  intros Hne E st'. split_and!.
  - by apply callback_fails.
  - intros fuel. rewrite flush_step by (by intros [? _]).
    unfold dispatch. run_steps. rewrite bool_decide_eq_false_2 by done.
    erewrite bind_Err by (by apply callback_fails). done.
  - intros arg env'. rewrite add_run. subst st'. cbn [fst world].
    rewrite ev_queue_after_add, todo_after_add.
    rewrite bool_decide_eq_false_2 by done. by rewrite app_nil_r.
Qed.

Lemma callback_failure_keeps_batch_witness :
  _callback 0 env_down st_queued =
    (mkState (world st_queued)
       (trace st_queued ++
        [batch_log 0 (world st_queued);
         Interaction (batch_call 0 (world st_queued)) (Exn (Failure "down"))]),
     Err (Failure "down")) /\
  _todo (batcher (world st_queued) 0) = todo3.
Proof.
  split; [|vm_compute; reflexivity].
  apply (callback_failure_keeps_batch 0 (Failure "down") env_down st_queued).
  - vm_compute. discriminate.
  - reflexivity.
Defined.

Lemma NoDup_sublist_take {A} (n : nat) (l : list A) :
  NoDup l -> NoDup (take n l).
Proof. intros H. eapply sublist_NoDup; [exact H|]. apply sublist_take. Qed.

Lemma zip_targets_take (todo : list (ref * value)) (vs : list value) :
  ((fun p : ref * value * value => (p.1.1, p.2)) <$> zip todo vs).*1
  = take (length vs) todo.*1.
Proof.
  revert vs. induction todo as [|[f a] todo IH]; intros [|v vs]; simpl;
    try done.
  f_equal. apply IH.
Qed.

(** The completion callback on a dispatched batch, for a result list of any
    length. *)
Lemma rpc_callback_list_run self running todo vs env st :
  NoDup (running :: todo.*1) ->
  Forall (fun f => fut_state (world st) f = Pending) (running :: todo.*1) ->
  running ∈ _running (batcher (world st) self) ->
  _rpc_callback self (returns (obj_list vs)) todo running env st =
    (mkState
       (resolve ((fun p : ref * value * value => (p.1.1, p.2)) <$> zip todo vs)
          (marker_done self running (world st)))
       (trace st), Ok tt).
Proof.
  intros Hnd Hp Hin.
  apply NoDup_cons in Hnd as [Hr Hnd]. apply Forall_cons in Hp as [Hpr Hp].
  rewrite rpc_callback_prefix by done.
  unfold get_result. unfold bind at 1. unfold ret at 1.
  rewrite bool_decide_eq_false_2 by done.
  unfold iterate. unfold bind at 1. unfold ret at 1.
  rewrite for_todo_zip. rewrite for_set_result; cbn [world trace].
  - reflexivity.
  - rewrite zip_targets_take. by apply NoDup_sublist_take.
  - rewrite zip_targets_take. apply Forall_take.
    rewrite Forall_forall in Hp. apply Forall_forall. intros g Hg.
    rewrite fut_state_marker_done.
    destruct (decide (running = g)); [by subst|by apply Hp].
Qed.

Lemma batcher_resolve l w self : batcher (resolve l w) self = batcher w self.
Proof. unfold batcher. by rewrite resolve_batchers. Qed.

Lemma batcher_marker_done self running w :
  batcher (marker_done self running w) self =
    set_running (_running (batcher w self) ∖ {[running]}) (batcher w self).
Proof. unfold marker_done. by rewrite batcher_set_batcher. Qed.

Lemma not_elem_of_take_lookup {A} (l : list A) (i n : nat) (x : A) :
  NoDup l -> l !! i = Some x -> n <= i -> x ∉ take n l.
Proof.
  intros Hnd Hi Hle Hin. apply elem_of_take in Hin as (j & Hj & Hlt).
  assert (i = j) by (by eapply NoDup_lookup). lia.
Qed.

(** What the completion callback leaves behind for a result list of any
    length: the marker is resolved and out of the running set, the pending
    queue is as it was, each future of the batch holds the value at its
    position if there is one, and no other future is touched. *)
Lemma rpc_callback_list_outcome (self running : ref)
    (todo : list (ref * value)) (vs : list value) (env : Env) (st : State) :
  NoDup (running :: todo.*1) ->
  Forall (fun f => fut_state (world st) f = Pending) (running :: todo.*1) ->
  running ∈ _running (batcher (world st) self) ->
  exists st',
    _rpc_callback self (returns (obj_list vs)) todo running env st
      = (st', Ok tt) /\
    trace st' = trace st /\
    fut_state (world st') running = Resolved VNone /\
    _running (batcher (world st') self) =
      _running (batcher (world st) self) ∖ {[running]} /\
    _todo (batcher (world st') self) = _todo (batcher (world st) self) /\
    (forall i fut arg,
       todo !! i = Some (fut, arg) ->
       fut_state (world st') fut =
         match vs !! i with
         | Some val => Resolved val
         | None => Pending
         end) /\
    (forall g,
       g ∉ running :: todo.*1 ->
       fut_state (world st') g = fut_state (world st) g).
Proof.
  intros Hnd Hp Hin. eexists. split; [by apply rpc_callback_list_run|].
  apply NoDup_cons in Hnd as [Hr Hnd]. apply Forall_cons in Hp as [Hpr Hp].
  cbn [world trace]. split_and!.
  - done.
  - rewrite resolve_not_in.
    + rewrite fut_state_marker_done. by destruct (decide _).
    + rewrite zip_targets_take. intros Hx. apply Hr.
      by eapply subseteq_take.
  - by rewrite batcher_resolve, batcher_marker_done.
  - by rewrite batcher_resolve, batcher_marker_done.
  - intros i fut arg Hi. destruct (vs !! i) as [val|] eqn:Hv.
    + eapply resolve_lookup; [|by eapply zip_lookup].
      rewrite zip_targets_take. by apply NoDup_sublist_take.
    + rewrite resolve_not_in.
      * rewrite fut_state_marker_done.
        assert (Hf : fut ∈ todo.*1).
        { apply list_elem_of_fmap. exists (fut, arg). split; [done|].
          by eapply list_elem_of_lookup_2. }
        destruct (decide (running = fut)) as [->|_]; [done|].
        rewrite Forall_forall in Hp. by apply Hp.
      * rewrite zip_targets_take.
        apply (not_elem_of_take_lookup _ i); [done| |].
        -- by rewrite list_lookup_fmap, Hi.
        -- by apply lookup_ge_None.
  - intros g Hg. apply not_elem_of_cons in Hg as [Hgr Hg].
    rewrite resolve_not_in.
    + rewrite fut_state_marker_done. by destruct (decide _).
    + rewrite zip_targets_take. intros Hx. apply Hg.
      by eapply subseteq_take.
Qed.

(** X3. Bookkeeping of the completion callback.  Take a dispatched batch
    whose futures and marker are distinct and pending.  If the marker is in
    the running set, then for a result list of any length
    [_rpc_callback] returns normally without any request, resolves the
    marker with None and takes it out of the running set, leaves the
    pending queue alone, gives each future of the batch the value at its
    position (futures beyond the end of the list stay pending, values
    beyond the end of the batch are ignored) and touches no other future.
    If the marker is not in the running set, [_rpc_callback] raises
    KeyError once it has resolved the marker, whatever the result of the
    RPC is: the futures of the batch stay pending and the batcher is
    unchanged. *)
Theorem rpc_callback_bookkeeping (self running : ref)
    (todo : list (ref * value)) (env : Env) (st : State) :
  NoDup (running :: todo.*1) ->
  Forall (fun f => fut_state (world st) f = Pending) (running :: todo.*1) ->
  (running ∈ _running (batcher (world st) self) ->
   forall vs,
     exists st',
       _rpc_callback self (returns (obj_list vs)) todo running env st
         = (st', Ok tt) /\
       trace st' = trace st /\
       fut_state (world st') running = Resolved VNone /\
       _running (batcher (world st') self) =
         _running (batcher (world st) self) ∖ {[running]} /\
       _todo (batcher (world st') self) = _todo (batcher (world st) self) /\
       (forall i fut arg,
          todo !! i = Some (fut, arg) ->
          fut_state (world st') fut =
            match vs !! i with
            | Some val => Resolved val
            | None => Pending
            end) /\
       (forall g,
          g ∉ running :: todo.*1 ->
          fut_state (world st') g = fut_state (world st) g)) /\
  (running ∉ _running (batcher (world st) self) ->
   forall rpc,
     exists st',
       _rpc_callback self rpc todo running env st = (st', Err KeyError) /\
       fut_state (world st') running = Resolved VNone /\
       Forall (fun f => fut_state (world st') f = Pending) todo.*1 /\
       batcher (world st') self = batcher (world st) self).
Proof.
  intros Hnd Hp. split.
  - intros Hin vs. by apply rpc_callback_list_outcome.
  - intros Hnin rpc.
    apply NoDup_cons in Hnd as [Hr Hnd]. apply Forall_cons in Hp as [Hpr Hp].
    eexists. split.
    + unfold _rpc_callback.
      erewrite bind_Ok by (by apply set_result_pending).
      unfold the_batcher. rewrite bind_gets. cbn [world].
      change (batcher (set_futures _ (world st)) self)
        with (batcher (world st) self).
      rewrite bool_decide_eq_false_2 by done.
      rewrite bind_raise. reflexivity.
    + cbn [world]. split_and!.
      * rewrite fut_state_insert. by destruct (decide _).
      * rewrite Forall_forall in Hp. apply Forall_forall. intros g Hg.
        rewrite fut_state_insert.
        destruct (decide (running = g)); [by subst|by apply Hp].
      * reflexivity.
Qed.

Lemma rpc_callback_bookkeeping_witness :
  (exists st',
     _rpc_callback 0 (returns (obj_list [VEntity 7; VEntity 8; VEntity 9;
                                          VEntity 10]))
       todo3 4 env0 st3 = (st', Ok tt) /\
     fut_state (world st') 3 = Resolved (VEntity 9) /\
     _running (batcher (world st') 0) = ∅) /\
  (exists st',
     _rpc_callback 0 (returns (obj_list [])) todo3 4 env0 st_queued
       = (st', Err KeyError)).
Proof.
  split.
  - destruct (rpc_callback_bookkeeping 0 4 todo3 env0 st3) as [H _];
      [compute_done|compute_done|].
    destruct (H ltac:(compute_done)
                [VEntity 7; VEntity 8; VEntity 9; VEntity 10])
      as (st' & Hrun & _ & _ & Hr & _ & Hf & _).
    exists st'. split_and!; [done| |].
    + apply (Hf 2 3 (key_of "C")). reflexivity.
    + rewrite Hr. compute_done.
  - destruct (rpc_callback_bookkeeping 0 4 todo3 env0 st_queued) as [_ H];
      [compute_done|compute_done|].
    destruct (H ltac:(compute_done) (returns (obj_list [])))
      as (st' & Hrun & _).
    by exists st'.
Defined.

Lemma fut_state_after_dispatch self rpc w g :
  fut_state (after_dispatch self rpc w) g =
  if decide (next_id w = g) then Pending else fut_state w g.
Proof.
  unfold after_dispatch, fut_state. simpl. rewrite lookup_insert.
  by destruct (decide (next_id w = g)).
Qed.

Lemma ev_rpcs_after_dispatch self rpc w :
  ev_rpcs (after_dispatch self rpc w) =
    ev_rpcs w ++ [mkRpcEntry rpc self (_todo (batcher w self)) (next_id w)].
Proof.
  unfold after_dispatch. cbn [ev_rpcs set_batcher set_batchers set_ev_rpcs].
  by rewrite batcher_set_batcher.
Qed.

Lemma callback_quiet_run self env st :
  _todo (batcher (world st) self) <> [] ->
  quiet_connection env ->
  exists rpc,
    _callback self env st =
      (mkState (after_dispatch self rpc (world st))
         (trace st ++ [batch_log self (world st);
                       Interaction (batch_call self (world st)) (Val rpc)]),
       Ok tt).
Proof.
  intros Hne Hq.
  destruct (Hq (trace st ++ [batch_log self (world st)])
              (call_batch (_method (batcher (world st) self)).1
                 (_method (batcher (world st) self)).2
                 (_options (batcher (world st) self))
                 (_todo (batcher (world st) self)).*2) (world st)) as [rpc E].
  exists rpc. by apply callback_run.
Qed.

(** X4. Requests that arrive while a batch is in flight.  After a
    dispatch the registered completion holds the queue as it was; an [add]
    that follows starts a new queue holding just its request, schedules a
    new flush callback and leaves the registered completion alone.  When
    the earlier batch then completes, its futures get their values while
    the new request stays queued and its future stays pending. *)
Theorem add_while_in_flight (self : ref) (arg : value) (env : Env)
    (st : State) :
  quiet_connection env ->
  _todo (batcher (world st) self) <> [] ->
  NoDup (_todo (batcher (world st) self)).*1 ->
  Forall (fun f => f < next_id (world st) /\ fut_state (world st) f = Pending)
    (_todo (batcher (world st) self)).*1 ->
  exists st1 entry st2 fut,
    _callback self env st = (st1, Ok tt) /\
    ev_rpcs (world st1) = ev_rpcs (world st) ++ [entry] /\
    q_todo entry = _todo (batcher (world st) self) /\
    add self arg env st1 = (st2, Ok fut) /\
    _todo (batcher (world st2) self) = [(fut, arg)] /\
    ev_queue (world st2) = ev_queue (world st1) ++ [(0%Z, bound_callback self)] /\
    ev_rpcs (world st2) = ev_rpcs (world st1) /\
    forall vs,
      exists st3,
        _rpc_callback self (returns (obj_list vs)) (q_todo entry)
          (q_running entry) env st2 = (st3, Ok tt) /\
        _todo (batcher (world st3) self) = [(fut, arg)] /\
        fut_state (world st3) fut = Pending /\
        forall i f a v,
          q_todo entry !! i = Some (f, a) -> vs !! i = Some v ->
          fut_state (world st3) f = Resolved v.
Proof.
  intros Hq Hne Hnd Hp.
  destruct (callback_quiet_run self env st Hne Hq) as [rpc Hcb].
  set (todo := _todo (batcher (world st) self)) in *.
  set (running := next_id (world st)).
  set (st1 := mkState (after_dispatch self rpc (world st)) _) in Hcb.
  set (st2 := mkState (after_add self arg (world st1)) (trace st1)).
  assert (Hb1 : batcher (world st1) self =
                mkAutoBatcher [] ({[running]} ∪ _running (batcher (world st) self))
                  (_method (batcher (world st) self))
                  (_options (batcher (world st) self))).
  { subst st1. cbn [world]. apply batcher_after_dispatch. }
  assert (Hn1 : next_id (world st1) = S running) by reflexivity.
  assert (Hb2 : batcher (world st2) self =
                set_todo [(S running, arg)] (batcher (world st1) self)).
  { subst st2. cbn [world]. unfold after_add. rewrite batcher_set_batcher.
    rewrite Hb1, Hn1. reflexivity. }
  assert (Hf2 : forall g, fut_state (world st2) g =
                  if decide (S running = g) then Pending
                  else if decide (running = g) then Pending
                  else fut_state (world st) g).
  { intros g. subst st2. cbn [world]. rewrite fut_state_after_add, Hn1.
    destruct (decide (S running = g)); [done|].
    subst st1. cbn [world]. apply fut_state_after_dispatch. }
  assert (Hlt : forall f, f ∈ todo.*1 ->
                  f < running /\ fut_state (world st) f = Pending).
  { by apply Forall_forall. }
  exists st1, (mkRpcEntry rpc self todo running), st2, (S running).
  split_and!.
  - exact Hcb.
  - subst st1. cbn [world]. apply ev_rpcs_after_dispatch.
  - reflexivity.
  - apply add_run.
  - rewrite Hb2. reflexivity.
  - subst st2. cbn [world]. rewrite ev_queue_after_add, Hb1. reflexivity.
  - subst st2. cbn [world]. unfold after_add.
    by destruct (bool_decide _).
  - intros vs. cbn [q_todo q_running].
    destruct (rpc_callback_list_outcome self running todo vs env st2)
      as (st3 & Hrun & _ & _ & _ & Ht3 & Hres & Hother).
    + constructor; [|done]. intros Hin. apply Hlt in Hin. lia.
    + constructor.
      * rewrite Hf2. destruct (decide _); [done|]. by destruct (decide _).
      * apply Forall_forall. intros f Hf. rewrite Hf2.
        destruct (decide _); [done|]. destruct (decide _); [done|].
        by apply Hlt.
    + rewrite Hb2, Hb1. cbn [_running set_todo].
      apply elem_of_union. left. by apply elem_of_singleton.
    + exists st3. split_and!; [done| | |].
      * by rewrite Ht3, Hb2.
      * rewrite Hother.
        -- rewrite Hf2. by destruct (decide _).
        -- apply not_elem_of_cons. split; [lia|].
           intros Hx. apply Hlt in Hx. lia.
      * intros i f a v Hi Hv. rewrite (Hres i f a Hi). by rewrite Hv.
Qed.

Lemma add_while_in_flight_witness :
  exists st1 entry st2 fut,
    _callback 0 env0 st_queued = (st1, Ok tt) /\
    ev_rpcs (world st1) = ev_rpcs (world st_queued) ++ [entry] /\
    q_todo entry = _todo (batcher (world st_queued) 0) /\
    add 0 (key_of "D") env0 st1 = (st2, Ok fut) /\
    _todo (batcher (world st2) 0) = [(fut, key_of "D")] /\
    ev_queue (world st2) = ev_queue (world st1) ++ [(0%Z, bound_callback 0)] /\
    ev_rpcs (world st2) = ev_rpcs (world st1) /\
    forall vs,
      exists st3,
        _rpc_callback 0 (returns (obj_list vs)) (q_todo entry)
          (q_running entry) env0 st2 = (st3, Ok tt) /\
        _todo (batcher (world st3) 0) = [(fut, key_of "D")] /\
        fut_state (world st3) fut = Pending /\
        forall i f a v,
          q_todo entry !! i = Some (f, a) -> vs !! i = Some v ->
          fut_state (world st3) f = Resolved v.
Proof.
  apply (add_while_in_flight 0 (key_of "D") env0 st_queued).
  - exact env0_quiet.
  - vm_compute. discriminate.
  - compute_done.
  - compute_done.
Defined.

Lemma todo_after_dispatch self rpc w :
  _todo (batcher (after_dispatch self rpc w) self) = [].
Proof. by rewrite batcher_after_dispatch. Qed.

Lemma rounds_run self batches env st :
  quiet_connection env ->
  _todo (batcher (world st) self) = [] ->
  exists st',
    rounds self batches env st = (st', Ok tt) /\
    requests_of (trace st') =
      requests_of (trace st) ++
      ((fun args =>
          conn_call (call_batch (_method (batcher (world st) self)).1
                       (_method (batcher (world st) self)).2
                       (_options (batcher (world st) self)) args))
         <$> filter (fun args => args <> []) batches) /\
    _todo (batcher (world st') self) = [] /\
    _method (batcher (world st') self) = _method (batcher (world st) self) /\
    _options (batcher (world st') self) = _options (batcher (world st) self).
Proof.
  intros Hq. revert st. induction batches as [|args rest IH]; intros st Ht.
  - exists st. simpl. rewrite app_nil_r. by split_and!.
  - cbn [rounds]. erewrite bind_Ok by apply add_all_run.
    set (st1 := mkState (adds self args (world st)) (trace st)).
    destruct (decide (args = [])) as [->|Hargs].
    + assert (Hst1 : st1 = st) by (subst st1; simpl; apply state_eta).
      rewrite Hst1. erewrite bind_Ok by (by apply callback_empty).
      destruct (IH st Ht) as (st' & Hrun & Hreq & Hrest).
      exists st'. split; [done|]. split; [|done].
      by rewrite filter_cons_False by (by intros H; apply H).
    + assert (Ht1 : _todo (batcher (world st1) self)
                    = zip (seq (next_id (world st)) (length args)) args).
      { subst st1. cbn [world]. by rewrite adds_todo, Ht. }
      assert (Hne : _todo (batcher (world st1) self) <> []).
      { rewrite Ht1. by destruct args. }
      destruct (callback_quiet_run self env st1 Hne Hq) as [rpc Hcb].
      erewrite bind_Ok by exact Hcb.
      match type of Hcb with _ = (?s, _) => set (st2 := s) in * end.
      destruct (IH st2) as (st' & Hrun & Hreq & Ht' & Hm' & Ho').
      { subst st2. cbn [world]. apply todo_after_dispatch. }
      assert (Hm2 : _method (batcher (world st2) self)
                    = _method (batcher (world st) self)).
      { subst st2. cbn [world]. rewrite batcher_after_dispatch. cbn.
        subst st1. cbn [world]. apply adds_method. }
      assert (Ho2 : _options (batcher (world st2) self)
                    = _options (batcher (world st) self)).
      { subst st2. cbn [world]. rewrite batcher_after_dispatch. cbn.
        subst st1. cbn [world]. apply adds_options. }
      exists st'. split; [done|]. split_and!; [|done|congruence|congruence].
      rewrite Hreq, Hm2, Ho2. rewrite filter_cons_True by done.
      rewrite fmap_cons. subst st2. cbn [trace].
      rewrite requests_of_app. cbn [requests_of batch_log].
      unfold batch_call. rewrite Ht1.
      rewrite snd_zip by (rewrite length_seq; lia).
      subst st1. cbn [world trace].
      rewrite adds_method, adds_options.
      by rewrite <- app_assoc.
Qed.

(** X5. Every request is sent once.  Starting from an empty queue, let
    each round add some requests and then run the flush callback.  With a
    connection that returns its RPC handles, the calls made are exactly
    one batched call per non-empty round, in order, each with the requests
    of its round in submission order; an empty round sends nothing and the
    queue is empty at the end. *)
Theorem rounds_send_each_request_once (self : ref)
    (batches : list (list value)) (env : Env) (st : State) :
  quiet_connection env ->
  _todo (batcher (world st) self) = [] ->
  exists st',
    rounds self batches env st = (st', Ok tt) /\
    requests_of (trace st') =
      requests_of (trace st) ++
      ((fun args =>
          conn_call (call_batch (_method (batcher (world st) self)).1
                       (_method (batcher (world st) self)).2
                       (_options (batcher (world st) self)) args))
         <$> filter (fun args => args <> []) batches) /\
    _todo (batcher (world st') self) = [].
Proof.
  intros Hq Ht.
  destruct (rounds_run self batches env st Hq Ht)
    as (st' & Hrun & Hreq & Ht' & _).
  by exists st'.
Qed.

Lemma rounds_send_each_request_once_witness :
  exists st',
    rounds 0 [[key_of "A"; key_of "B"]; []; [key_of "C"]] env0 st_batcher
      = (st', Ok tt) /\
    requests_of (trace st') =
      [conn_call (call_batch (Conn 1) async_get None [key_of "A"; key_of "B"]);
       conn_call (call_batch (Conn 1) async_get None [key_of "C"])] /\
    _todo (batcher (world st') 0) = [].
Proof.
  destruct (rounds_send_each_request_once 0
              [[key_of "A"; key_of "B"]; []; [key_of "C"]] env0 st_batcher
              env0_quiet)
    as (st' & Hrun & Hreq & Ht); [reflexivity|].
  exists st'. split_and!; [done| |done].
  rewrite Hreq. vm_compute. reflexivity.
Defined.

(** ** Context: what get, put and delete leave behind *)

Lemma get_outcome self key env st :
  let c := context (world st) self in
  let wait := yield_ (VFuture (next_id (world st))) in
  let ans := wait_for (_get_batcher c) key env st in
  get self key env st =
    match _cache c !! key with
    | Some entity => (st, Ok entity)
    | None =>
        match ans.2 with
        | Val v =>
            (mkState
               (if policy_says (context ans.1 self) key v
                then cached self key v ans.1 else ans.1)
               (trace st ++ [Interaction wait (Val v)]), Ok v)
        | Exn e => (mkState ans.1 (trace st ++ [Interaction wait (Exn e)]), Err e)
        end
    end.
Proof.
  intros c wait ans. subst c wait ans. unfold get, wait_for. run_steps.
  destruct (_cache (context (world st) self) !! key) as [entity|];
    [reflexivity|].
  erewrite bind_Ok by apply add_run. run_steps.
  destruct (env _ _ _) as [w1 [v|e]]; cbn [fst snd]; [|reflexivity].
  unfold policy_says, cached. run_steps.
  destruct (_cache_policy (context w1 self)) as [policy|]; run_steps.
  - by destruct (policy key v).
  - reflexivity.
Qed.

Lemma put_outcome self ent env st :
  let c := context (world st) self in
  let wait := yield_ (VFuture (next_id (world st))) in
  let ans := wait_for (_put_batcher c) (VEntity ent) env st in
  put self ent env st =
    match ans.2 with
    | Val key =>
        let old := ent_key (entity ans.1 ent) in
        let w2 :=
          if bool_decide (old ≠ key)
          then set_entity ent (set_key key (entity ans.1 ent)) ans.1
          else ans.1 in
        (mkState
           (if policy_says (context ans.1 self) key (VEntity ent)
            then cached self key (VEntity ent) w2 else w2)
           (trace st ++
            Interaction wait (Val key) ::
            (if bool_decide (old ≠ key)
             then [Logged (log_replacing_key old key)] else [])),
         Ok key)
    | Exn e => (mkState ans.1 (trace st ++ [Interaction wait (Exn e)]), Err e)
    end.
Proof.
  intros c wait ans. subst c wait ans. unfold put, wait_for. run_steps.
  erewrite bind_Ok by apply add_run. run_steps.
  destruct (env _ _ _) as [w1 [key|e]]; cbn [fst snd]; [|reflexivity].
  cbn zeta. unfold policy_says, cached. run_steps.
  destruct (bool_decide (ent_key (entity w1 ent) ≠ key)); run_steps;
    try change (context (set_entity ent (set_key key (entity w1 ent)) w1) self)
      with (context w1 self);
    destruct (_cache_policy (context w1 self)) as [policy|]; run_steps;
    try destruct (policy key (VEntity ent)); rewrite <- ?app_assoc;
    reflexivity.
Qed.

Lemma delete_outcome self key env st :
  let c := context (world st) self in
  let wait := yield_ (VFuture (next_id (world st))) in
  let ans := wait_for (_delete_batcher c) key env st in
  delete self key env st =
    match ans.2 with
    | Val v =>
        (mkState
           (if bool_decide (is_Some (_cache (context ans.1 self) !! key))
            then cached self key VNone ans.1 else ans.1)
           (trace st ++ [Interaction wait (Val v)]), Ok VNone)
    | Exn e => (mkState ans.1 (trace st ++ [Interaction wait (Exn e)]), Err e)
    end.
Proof.
  intros c wait ans. subst c wait ans. unfold delete, wait_for. run_steps.
  erewrite bind_Ok by apply add_run. run_steps.
  destruct (env _ _ _) as [w1 [v|e]]; cbn [fst snd]; [|reflexivity].
  unfold cached. run_steps.
  by destruct (bool_decide (is_Some (_cache (context w1 self) !! key)));
    run_steps.
Qed.

Lemma Context_init_default conn env st :
  Context_init conn env st
  = Context_init (Some (default model_conn conn)) env st.
Proof. by destruct conn. Qed.

Lemma with_Context_objects conn w :
  context (with_Context conn w) (next_id w) =
    mkContext conn (S (next_id w)) (S (S (next_id w))) (S (S (S (next_id w))))
      ∅ None /\
  batcher (with_Context conn w) (S (next_id w))
    = new_batcher (conn, async_get) /\
  batcher (with_Context conn w) (S (S (next_id w)))
    = new_batcher (conn, async_put) /\
  batcher (with_Context conn w) (S (S (S (next_id w))))
    = new_batcher (conn, async_delete).
Proof.
  unfold with_Context. rewrite context_set_context.
  unfold batcher, set_batcher. cbn.
  split_and!; [done| | |].
  - rewrite !lookup_insert_ne by lia. by rewrite lookup_insert_eq.
  - rewrite lookup_insert_ne by lia. by rewrite lookup_insert_eq.
  - by rewrite lookup_insert_eq.
Qed.

Lemma batcher_after_add self arg w :
  batcher (after_add self arg w) self =
    set_todo (_todo (batcher w self) ++ [(next_id w, arg)]) (batcher w self).
Proof. unfold after_add. by rewrite batcher_set_batcher. Qed.

Lemma batcher_cached self key v w b : batcher (cached self key v w) b = batcher w b.
Proof. reflexivity. Qed.

Lemma batcher_set_entity e x w b : batcher (set_entity e x w) b = batcher w b.
Proof. reflexivity. Qed.

(** After a task queued [arg] on a new batcher and was resumed by a
    passive scheduler, the next dispatch of that batcher sends [arg] alone. *)
Lemma dispatch_after_wait (b : ref) (conn : Connection) (m : batch_method)
    (arg : value) (w0 w : World) (tr : list event) (env' : Env) :
  batcher w0 b = new_batcher (conn, m) ->
  batcher w b = batcher (after_add b arg w0) b ->
  requests_of (trace (_callback b env' (mkState w tr)).1) =
    requests_of tr ++ [conn_call (call_batch conn m None [arg])].
Proof.
  intros H0 Hw.
  assert (Hb : batcher w b
               = set_todo [(next_id w0, arg)] (new_batcher (conn, m))).
  { by rewrite Hw, batcher_after_add, H0. }
  rewrite callback_request; cbn [world trace].
  - unfold batch_call. by rewrite Hb.
  - by rewrite Hb.
Qed.

(** What a task that queued [arg] on batcher [b] of a new context leaves
    behind, whatever the outcome of its wait. *)
Ltac after_wait Hp Hb :=
  match goal with
  | |- context [wait_for ?b ?arg ?env ?st] =>
      let Hw := fresh in
      let w1 := fresh "w" in
      pose proof (Hp (trace st) (yield_ (VFuture (next_id (world st))))
                    (after_add b arg (world st))) as Hw;
      unfold wait_for; cbn [world trace] in Hw |- *;
      destruct (env _ _ _) as [w1 [?|?]]; cbn [fst snd] in Hw |- *; subst w1;
      repeat match goal with
        | |- context [if ?c then _ else _] => destruct c
        end;
      cbn [fst trace];
      (eapply dispatch_after_wait;
       [ exact Hb
       | match goal with
         | |- _ = batcher ?x _ => generalize x; intro; reflexivity
         end ])
  end.

(** X6. A new context routes each operation to its own connection
    method.  [Context.__init__] returns a new object whose connection is
    the one given, or [model.conn] when none is given.  After [get],
    [put] or [delete] has run on it (whatever the outcome of its wait,
    no other task interfering), the next dispatch of the context's get,
    put or delete batcher is one call of [async_get], [async_put] or
    [async_delete] on that connection, with no options, for just that key
    or entity. *)
Theorem context_routes_requests (conn : option Connection) (env : Env)
    (st : State) :
  passive env ->
  let c := next_id (world st) in
  let st0 := (Context_init conn env st).1 in
  let x := context (world st0) c in
  (Context_init conn env st).2 = Ok c /\
  _conn x = default model_conn conn /\
  (forall key env',
     let st1 := (get c key env st0).1 in
     requests_of (trace (_callback (_get_batcher x) env' st1).1) =
       requests_of (trace st1) ++
       [conn_call (call_batch (_conn x) async_get None [key])]) /\
  (forall ent env',
     let st1 := (put c ent env st0).1 in
     requests_of (trace (_callback (_put_batcher x) env' st1).1) =
       requests_of (trace st1) ++
       [conn_call (call_batch (_conn x) async_put None [VEntity ent])]) /\
  (forall key env',
     let st1 := (delete c key env st0).1 in
     requests_of (trace (_callback (_delete_batcher x) env' st1).1) =
       requests_of (trace st1) ++
       [conn_call (call_batch (_conn x) async_delete None [key])]).
Proof.
  intros Hp c st0 x. subst c st0 x.
  rewrite Context_init_default, Context_init_run. cbn [fst snd world].
  set (conn' := default model_conn conn).
  destruct (with_Context_objects conn' (world st)) as (Hc & Hg & Hput & Hd).
  rewrite Hc. cbn [_conn _get_batcher _put_batcher _delete_batcher].
  split_and!; [reflexivity|reflexivity| | |].
  - intros key env'. rewrite get_outcome. cbn zeta.
    cbn [world]. rewrite Hc. cbn [_cache _get_batcher].
    rewrite lookup_empty. after_wait Hp Hg.
  - intros ent env'. rewrite put_outcome. cbn zeta.
    cbn [world]. rewrite Hc. cbn [_put_batcher]. after_wait Hp Hput.
  - intros key env'. rewrite delete_outcome. cbn zeta.
    cbn [world]. rewrite Hc. cbn [_delete_batcher]. after_wait Hp Hd.
Qed.

Lemma env0_passive : passive env0.
Proof. by intros tr r w. Qed.

Lemma context_routes_requests_witness :
  let st0 := (Context_init None env0 (mkState world0 [])).1 in
  let x := context (world st0) (next_id (world (mkState world0 []))) in
  let st1 :=
    (get (next_id (world (mkState world0 []))) (key_of "A") env0 st0).1 in
  requests_of (trace (_callback (_get_batcher x) env0 st1).1) =
    requests_of (trace st1) ++
    [conn_call (call_batch (_conn x) async_get None [key_of "A"])].
Proof.
  destruct (context_routes_requests None env0 (mkState world0 []) env0_passive)
    as (_ & _ & Hget & _).
  exact (Hget (key_of "A") env0).
Defined.

Lemma context_cached self key v w :
  context (cached self key v w) self =
    set_cache (<[key := v]> (_cache (context w self))) (context w self).
Proof. unfold cached. by rewrite context_set_context. Qed.

(** X7. [get] remembers what the store answered.  After a miss, when
    [get] returns [v], the cache is the one the task was resumed with,
    with [key] bound to [v] if [should_cache] agrees and unchanged
    otherwise.  When it agrees the next [get] of the key returns [v] at
    once, also when [v] is None: a missing entity is remembered as
    missing.  When it refuses and no other task cached the key, the next
    [get] queues the key again. *)
Theorem get_caches_result (self : ref) (key : value) (env : Env)
    (st st' : State) (v : value) :
  _cache (context (world st) self) !! key = None ->
  get self key env st = (st', Ok v) ->
  let w1 := (wait_for (_get_batcher (context (world st) self)) key env st).1 in
  let verdict := policy_says (context w1 self) key v in
  _cache (context (world st') self) =
    (if verdict then <[key := v]> (_cache (context w1 self))
     else _cache (context w1 self)) /\
  (verdict = true ->
   forall env', get self key env' st' = (st', Ok v)) /\
  (verdict = false -> _cache (context w1 self) !! key = None ->
   forall env',
     requests_of (trace (get self key env' st').1) =
       requests_of (trace st') ++ [yield_ (VFuture (next_id (world st')))]).
Proof.
  intros Hmiss Hget w1 verdict. subst w1 verdict.
  rewrite get_outcome in Hget. cbn zeta in Hget. rewrite Hmiss in Hget.
  destruct (wait_for _ key env st) as [w1 [v'|e]]; cbn [fst snd] in *;
    [|discriminate].
  injection Hget as <- <-. cbn [world].
  destruct (policy_says (context w1 self) key v') eqn:Hv.
  - rewrite context_cached. cbn [_cache set_cache].
    split_and!; [done| |done].
    intros _ env'. apply get_hit. cbn [world].
    rewrite context_cached. cbn [_cache set_cache].
    by rewrite lookup_insert_eq.
  - split_and!; [done|done|].
    intros _ Hnone env'. by apply (get_miss self key env').
Qed.

Lemma get_caches_result_witness :
  let st1 := (get 0 (key_of "A") env0 st_ctx).1 in
  _cache (context (world st1) 0) !! key_of "A" = Some VNone /\
  get 0 (key_of "A") env_live st1 = (st1, Ok VNone).
Proof.
  intros st1.
  destruct (get_caches_result 0 (key_of "A") env0 st_ctx st1 VNone)
    as (Hc & Hhit & _).
  - vm_compute. reflexivity.
  - vm_compute. reflexivity.
  - split.
    + rewrite Hc. vm_compute. reflexivity.
    + apply Hhit. vm_compute. reflexivity.
Defined.



Lemma entity_cached self key v w e : entity (cached self key v w) e = entity w e.
Proof. reflexivity. Qed.

Lemma entity_set_entity_ne e e' x w :
  e' <> e -> entity (set_entity e x w) e' = entity w e'.
Proof.
  intros H. unfold entity, set_entity. simpl. by rewrite lookup_insert_ne.
Qed.

Lemma set_key_same x : set_key (ent_key x) x = x.
Proof. by destruct x. Qed.

(** X9. [put] assigns the key.  When [put] returns [key], the entity
    has [key] as its key and is otherwise as the task found it on
    resumption, no other entity is changed, the key replacement is logged
    exactly when the entity had another key before, and the cache binds
    [key] to the entity if [should_cache] agrees and is unchanged if it
    refuses (an older entry for the key then stays). *)
Theorem put_assigns_key (self ent : ref) (env : Env) (st st' : State)
    (key : value) :
  put self ent env st = (st', Ok key) ->
  let w1 :=
    (wait_for (_put_batcher (context (world st) self)) (VEntity ent) env st).1 in
  let old := ent_key (entity w1 ent) in
  entity (world st') ent = set_key key (entity w1 ent) /\
  (forall e', e' <> ent -> entity (world st') e' = entity w1 e') /\
  trace st' =
    trace st ++
    Interaction (yield_ (VFuture (next_id (world st)))) (Val key) ::
    (if bool_decide (old = key) then []
     else [Logged (log_replacing_key old key)]) /\
  _cache (context (world st') self) =
    (if policy_says (context w1 self) key (VEntity ent)
     then <[key := VEntity ent]> (_cache (context w1 self))
     else _cache (context w1 self)).
Proof.
  intros Hput w1 old. subst w1 old.
  rewrite put_outcome in Hput. cbn zeta in Hput.
  destruct (wait_for _ (VEntity ent) env st) as [w1 [k|e]]; cbn [fst snd] in *;
    [|discriminate].
  injection Hput as <- <-. cbn [world trace].
  destruct (decide (ent_key (entity w1 ent) = k)) as [Heq|Hne].
  - rewrite (bool_decide_eq_false_2 (_ ≠ _)) by (by intros H; apply H).
    rewrite bool_decide_eq_true_2 by done.
    destruct (policy_says (context w1 self) k (VEntity ent)).
    + rewrite entity_cached, context_cached. cbn [_cache set_cache].
      split_and!; [by rewrite <- Heq, set_key_same|done|done|done].
    + split_and!; [by rewrite <- Heq, set_key_same|done|done|done].
  - rewrite (bool_decide_eq_true_2 (_ ≠ _)) by done.
    rewrite bool_decide_eq_false_2 by done.
    destruct (policy_says (context w1 self) k (VEntity ent)).
    + rewrite context_cached. cbn [_cache set_cache].
      split_and!; [| |done|done].
      * rewrite entity_cached. apply entity_set_entity.
      * intros e' He'. rewrite entity_cached. by apply entity_set_entity_ne.
    + split_and!; [| |done|done].
      * apply entity_set_entity.
      * intros e' He'. by apply entity_set_entity_ne.
Qed.

Lemma put_assigns_key_witness :
  ent_key (entity (world st_stored) 4) = key_of "A" /\
  trace st_stored =
    trace st_ctx ++
    [Interaction (yield_ (VFuture 5)) (Val (key_of "A"));
     Logged (log_replacing_key VNone (key_of "A"))].
Proof.
  destruct (put_assigns_key 0 4 env_key st_ctx st_stored (key_of "A"))
    as (He & _ & Ht & _).
  - vm_compute. reflexivity.
  - split.
    + rewrite He. reflexivity.
    + rewrite Ht. vm_compute. reflexivity.
Defined.

(** X10. [delete] never adds or removes a cache key.  When [delete]
    returns, the cache holds an entry for exactly the keys it held when
    the task was resumed, the entries of all other keys are unchanged, and
    neither the cache policy (which [delete] does not consult) nor any
    entity is touched. *)
Theorem delete_keeps_cache_keys (self : ref) (key : value) (env : Env)
    (st st' : State) (r : value) :
  delete self key env st = (st', Ok r) ->
  let w1 :=
    (wait_for (_delete_batcher (context (world st) self)) key env st).1 in
  (forall k,
     is_Some (_cache (context (world st') self) !! k) <->
     is_Some (_cache (context w1 self) !! k)) /\
  (forall k,
     k <> key ->
     _cache (context (world st') self) !! k = _cache (context w1 self) !! k) /\
  _cache_policy (context (world st') self) = _cache_policy (context w1 self) /\
  entities (world st') = entities w1.
Proof.
  intros Hdel w1. subst w1.
  rewrite delete_outcome in Hdel. cbn zeta in Hdel.
  destruct (wait_for _ key env st) as [w1 [v|e]]; cbn [fst snd] in *;
    [|discriminate].
  injection Hdel as <- <-. cbn [world].
  case_bool_decide as Hc; [|done].
  rewrite context_cached. cbn [_cache _cache_policy set_cache].
  split_and!; [| |done|done].
  - intros k. destruct (decide (k = key)) as [->|Hk].
    + rewrite lookup_insert_eq. split; [done|by eexists].
    + by rewrite lookup_insert_ne.
  - intros k Hk. by rewrite lookup_insert_ne.
Qed.

Lemma delete_keeps_cache_keys_witness :
  _cache (context (world st_removed) 0) !! key_of "A" = Some VNone /\
  _cache (context (world st_removed) 0) !! key_of "B" = None /\
  _cache (context (world st_deleted) 0) !! key_of "A" = None.
Proof.
  destruct (delete_keeps_cache_keys 0 (key_of "A") env_key st_stored
              st_removed VNone) as (_ & Hother & _).
  - vm_compute. reflexivity.
  - split_and!.
    + vm_compute. reflexivity.
    + rewrite Hother by discriminate. vm_compute. reflexivity.
    + vm_compute. reflexivity.
Defined.

(** ** Context.set_cache_policy *)

(** X21. The cache policy governs new entries only.
    [set_cache_policy] changes nothing but the policy: the cache is as
    before and a key that is cached is still answered from the cache
    without consulting the policy.  After a miss, with the context left
    alone while the task waits, [get] caches the answer exactly when the
    policy in force approves it; with no policy everything is cached. *)
Theorem cache_policy_governs_new_entries (self : ref)
    (policy : option (value -> value -> bool)) (env : Env) (st : State) :
  let st0 := (set_cache_policy self policy env st).1 in
  _cache (context (world st0) self) = _cache (context (world st) self) /\
  (forall k x env',
     _cache (context (world st) self) !! k = Some x ->
     get self k env' st0 = (st0, Ok x)) /\
  (forall k v env' st',
     keeps_context self env' ->
     _cache (context (world st) self) !! k = None ->
     get self k env' st0 = (st', Ok v) ->
     _cache (context (world st') self) !! k =
       if match policy with None => true | Some f => f k v end
       then Some v else None).
Proof.
  intros st0. subst st0. unfold set_cache_policy, update_context, modify.
  cbn [fst world trace].
  assert (Hc : context (set_context self (set_policy policy
                          (context (world st) self)) (world st)) self
               = set_policy policy (context (world st) self))
    by apply context_set_context.
  split_and!.
  - by rewrite Hc.
  - intros k x env' Hk. apply get_hit. cbn [world]. by rewrite Hc.
  - intros k v env' st' Hkeep Hk Hget.
    rewrite get_outcome in Hget. cbn zeta in Hget. cbn [world] in Hget.
    rewrite Hc in Hget. cbn [_cache set_policy _get_batcher] in Hget.
    rewrite Hk in Hget. unfold wait_for in Hget. cbn [world trace] in Hget.
    match type of Hget with
    | context [env' ?tr ?r ?w] =>
        pose proof (Hkeep tr r w) as Hw;
        destruct (env' tr r w) as [w1 [v'|e]]
    end; cbn [fst snd] in *; [|discriminate].
    rewrite context_after_add, Hc in Hw.
    unfold policy_says in Hget. rewrite Hw in Hget.
    cbn [_cache_policy set_policy] in Hget.
    destruct policy as [f|].
    + assert (v' = v) as -> by (destruct (f k v'); by injection Hget).
      destruct (f k v) eqn:Hv; injection Hget as <-; cbn [world].
      * rewrite context_cached. cbn [_cache set_cache].
        by rewrite lookup_insert_eq.
      * rewrite Hw. by cbn [_cache set_policy].
    + injection Hget as <- <-. cbn [world]. rewrite context_cached.
      cbn [_cache set_cache]. by rewrite lookup_insert_eq.
Qed.

Lemma env_live_keeps_context : keeps_context 0 env_live.
Proof. by intros tr r w. Qed.

Lemma cache_policy_governs_new_entries_witness :
  let st0 := (set_cache_policy 0 (Some cache_nothing) env0 st_ctx).1 in
  let st1 := (get 0 (key_of "A") env_live st0).1 in
  (get 0 (key_of "A") env_live st0).2 = Ok (VEntity 7) /\
  _cache (context (world st1) 0) !! key_of "A" = None.
Proof.
  intros st0 st1. split; [vm_compute; reflexivity|].
  destruct (cache_policy_governs_new_entries 0 (Some cache_nothing) env0 st_ctx)
    as (_ & _ & Hmiss).
  apply (Hmiss (key_of "A") (VEntity 7) env_live st1 env_live_keeps_context).
  - vm_compute. reflexivity.
  - vm_compute. reflexivity.
Defined.

(** Use what a passive environment guarantees for each of its moves. *)
Ltac use_passive Hp :=
  repeat match goal with
  | E : ?en ?tr ?r ?w = (?w', _) |- _ =>
      let H := fresh in
      pose proof (Hp tr r w) as H; rewrite E in H; cbn [fst] in H;
      clear E; subst w'
  end.

(** X11. [allocate_ids] goes straight to the connection.  It makes one
    call of [async_allocate_ids] on the connection of the context with the
    key, size and max it was given, waits for the RPC if the call returned
    one, and ends with the outcome of that wait; an exception of either
    step is passed on.  It queues nothing on a batcher and writes nothing:
    with no other task running, the world is unchanged. *)
Theorem allocate_ids_direct (self : ref) (key : value) (size max : option Z)
    (env : Env) (st : State) :
  let call :=
    conn_call (call_allocate_ids (_conn (context (world st) self)) key size max) in
  let run := allocate_ids self key size max env st in
  (exists o rest,
     trace run.1 = trace st ++ Interaction call o :: rest /\
     match o with
     | Exn e => rest = [] /\ run.2 = Err e
     | Val rpc =>
         exists o', rest = [Interaction (yield_ rpc) o'] /\
           run.2 = match o' with Val v => Ok v | Exn e => Err e end
     end) /\
  (passive env -> world run.1 = world st).
Proof.
  intros call run. subst call run. unfold allocate_ids. run_steps.
  destruct (env (trace st) _ (world st)) as [w1 [rpc|e]] eqn:E1; cbn [fst snd].
  - run_steps.
    destruct (env _ (yield_ rpc) w1) as [w2 [v|e]] eqn:E2; cbn [fst snd].
    + split.
      * eexists (Val rpc), _. rewrite <- app_assoc. split; [reflexivity|].
        by eexists (Val v).
      * intros Hp. by use_passive Hp.
    + split.
      * eexists (Val rpc), _. rewrite <- app_assoc. split; [reflexivity|].
        by eexists (Exn e).
      * intros Hp. by use_passive Hp.
  - split.
    + by eexists (Exn e), _.
    + intros Hp. by use_passive Hp.
Qed.

Lemma allocate_ids_direct_witness :
  world (allocate_ids 0 (key_of "A") (Some 10%Z) None env0 st_ctx).1
  = world st_ctx.
Proof.
  destruct (allocate_ids_direct 0 (key_of "A") (Some 10%Z) None env0 st_ctx)
    as [_ H].
  exact (H env0_passive).
Defined.

(** ** Context.map_query: the helper task *)

Lemma calls_snoc tr e :
  calls (tr ++ [e]) =
  calls tr + match e with
             | Interaction r _ => if is_call r then 1 else 0
             | _ => 0
             end.
Proof.
  unfold calls. rewrite requests_of_app, filter_app, length_app. f_equal.
  destruct e as [r o|l|o]; simpl; try done. rewrite filter_cons.
  by destruct (is_call r).
Qed.

Lemma completions_snoc tr e :
  completions (tr ++ [e]) =
  completions tr + match e with
                   | Interaction r _ => if is_complete r then 1 else 0
                   | _ => 0
                   end.
Proof.
  unfold completions. rewrite requests_of_app, filter_app, length_app. f_equal.
  destruct e as [r o|l|o]; simpl; try done. rewrite filter_cons.
  by destruct (is_complete r).
Qed.

Lemma is_call_request callback arg : is_call (call_request callback arg) = true.
Proof. by destruct callback. Qed.

Lemma is_complete_call callback arg :
  is_complete (call_request callback arg) = false.
Proof. by destruct callback. Qed.



(** The last steps of the body of the result loop: the callback is called
    on [seen] and its result is handed to the MultiFuture. *)
Lemma call_and_route_paths callback mfut seen (count : Z) logs env st st1 :
  trace st1 = trace st ++ logs ->
  let run :=
    (val <- call callback seen ;;
     (if is_Future val
      then interact (mfut_add_dependent mfut val)
      else interact (mfut_process_value mfut val)) ;;
     ret (count + 1)%Z) env st1 in
  (exists e,
     trace run.1 =
       trace st ++ logs ++ [Interaction (call_request callback seen) (Exn e)] /\
     run.2 = Err e) \/
  (exists val o,
     trace run.1 =
       trace st ++ logs ++
       [Interaction (call_request callback seen) (Val val);
        Interaction (route mfut val) o] /\
     run.2 = match o with
             | Val _ => Ok (count + 1)%Z
             | Exn e => Err e
             end).
Proof.
  intros Htr run. subst run. run_steps. rewrite Htr.
  destruct (env _ (call_request callback seen) _) as [w1 [val|e]];
    cbn [fst snd].
  - right. exists val. unfold route.
    destruct (is_Future val); run_steps.
    all: destruct (env _ _ w1) as [w2 [x|e]]; cbn [fst snd].
    all: eexists; rewrite <- !app_assoc; split; reflexivity.
  - left. exists e. by rewrite <- app_assoc.
Qed.

(** Every path through the body of the result loop: the result is
    skipped, or the callback is called and raises, or the callback returns
    and its result is handed to the MultiFuture. *)
Lemma process_result_paths self callback mfut ent count env st :
  let run := process_result self callback mfut ent count env st in
  exists logs,
    ((trace run.1 = trace st ++ logs /\ run.2 = Ok count) \/
     (exists seen e,
        trace run.1 =
          trace st ++ logs ++ [Interaction (call_request callback seen) (Exn e)] /\
        run.2 = Err e) \/
     (exists seen val o,
        trace run.1 =
          trace st ++ logs ++
          [Interaction (call_request callback seen) (Val val);
           Interaction (route mfut val) o] /\
        run.2 = match o with
                | Val _ => Ok (count + 1)%Z
                | Exn e => Err e
                end)) /\
    requests_of logs = [].
Proof.
  intros run. subst run. unfold process_result.
  unfold the_context. rewrite !bind_gets.
  assert (Htail : forall seen logs st1,
    trace st1 = trace st ++ logs -> requests_of logs = [] ->
    let run :=
      (val <- call callback seen ;;
       (if is_Future val
        then interact (mfut_add_dependent mfut val)
        else interact (mfut_process_value mfut val)) ;;
       ret (count + 1)%Z) env st1 in
    exists logs,
      ((trace run.1 = trace st ++ logs /\ run.2 = Ok count) \/
       (exists seen e,
          trace run.1 =
            trace st ++ logs ++
            [Interaction (call_request callback seen) (Exn e)] /\
          run.2 = Err e) \/
       (exists seen val o,
          trace run.1 =
            trace st ++ logs ++
            [Interaction (call_request callback seen) (Val val);
             Interaction (route mfut val) o] /\
          run.2 = match o with
                  | Val _ => Ok (count + 1)%Z
                  | Exn e => Err e
                  end)) /\
      requests_of logs = []).
  { intros seen logs st1 Htr Hlogs. cbn zeta. exists logs. split; [|done].
    destruct (call_and_route_paths callback mfut seen count logs env st st1 Htr)
      as [(e & H1 & H2)|(val & o & H1 & H2)].
    - right; left. by exists seen, e.
    - right; right. by exists seen, val, o. }
  destruct (_cache (context (world st) self) !! ent_key (entity (world st) ent))
    as [cached|].
  - destruct (bool_decide (cached = VNone)).
    + eexists [_]. split; [left; split; reflexivity|reflexivity].
    + rewrite !bind_bind, !bind_gets.
      destruct (differs (world st) ent cached).
      * erewrite !bind_Ok by reflexivity.
        eapply (Htail cached [_]); reflexivity.
      * erewrite !bind_Ok by reflexivity.
        eapply (Htail cached []); [|reflexivity].
        cbn. by rewrite app_nil_r.
  - unfold should_cache, the_context. rewrite !bind_bind, !bind_gets.
    destruct (_cache_policy (context (world st) self)) as [policy|].
    + rewrite !bind_ret. destruct (policy _ _).
      * erewrite !bind_Ok by reflexivity.
        eapply (Htail (VEntity ent) []); [|reflexivity].
        cbn. by rewrite app_nil_r.
      * erewrite !bind_Ok by reflexivity.
        eapply (Htail (VEntity ent) []); [|reflexivity].
        cbn. by rewrite app_nil_r.
    + rewrite !bind_ret. erewrite !bind_Ok by reflexivity.
      eapply (Htail (VEntity ent) []); [|reflexivity].
      cbn. by rewrite app_nil_r.
Qed.

Lemma calls_app tr tr' : calls (tr ++ tr') = calls tr + calls tr'.
Proof. unfold calls. by rewrite requests_of_app, filter_app, length_app. Qed.

Lemma completions_app tr tr' :
  completions (tr ++ tr') = completions tr + completions tr'.
Proof.
  unfold completions. by rewrite requests_of_app, filter_app, length_app.
Qed.

Lemma calls_silent logs : requests_of logs = [] -> calls logs = 0.
Proof. unfold calls. by intros ->. Qed.

Lemma completions_silent logs : requests_of logs = [] -> completions logs = 0.
Proof. unfold completions. by intros ->. Qed.

Lemma is_call_route mfut val : is_call (route mfut val) = false.
Proof. unfold route. by destruct (is_Future val). Qed.

Lemma is_complete_route mfut val : is_complete (route mfut val) = false.
Proof. unfold route. by destruct (is_Future val). Qed.

Lemma calls_pair callback seen o mfut val o' :
  calls [Interaction (call_request callback seen) o;
         Interaction (route mfut val) o'] = 1.
Proof.
  unfold calls. cbn [requests_of]. rewrite !filter_cons.
  by rewrite is_call_request, is_call_route.
Qed.

Lemma calls_single callback seen o :
  calls [Interaction (call_request callback seen) o] = 1.
Proof.
  unfold calls. cbn [requests_of]. rewrite !filter_cons.
  by rewrite is_call_request.
Qed.

Lemma completions_pair callback seen o mfut val o' :
  completions [Interaction (call_request callback seen) o;
               Interaction (route mfut val) o'] = 0.
Proof.
  unfold completions. cbn [requests_of]. rewrite !filter_cons.
  by rewrite is_complete_call, is_complete_route.
Qed.

Lemma completions_single callback seen o :
  completions [Interaction (call_request callback seen) o] = 0.
Proof.
  unfold completions. cbn [requests_of]. rewrite !filter_cons.
  by rewrite is_complete_call.
Qed.

(** The body of the result loop never completes the MultiFuture, calls
    the callback at most once, and counts exactly the calls it made. *)
Lemma process_result_counts self callback mfut ent count env st :
  let run := process_result self callback mfut ent count env st in
  completions (trace run.1) = completions (trace st) /\
  calls (trace st) <= calls (trace run.1) <= calls (trace st) + 1 /\
  match run.2 with
  | Ok count' =>
      count' = (count + Z.of_nat (calls (trace run.1) - calls (trace st)))%Z
  | Err _ => True
  | Unfinished => False
  end.
Proof.
  intros run. subst run.
  destruct (process_result_paths self callback mfut ent count env st)
    as (logs & [(Htr & Hr)|[(seen & e & Htr & Hr)|(seen & val & o & Htr & Hr)]]
        & Hlogs); cbn zeta in *; rewrite Htr, Hr.
  - rewrite calls_app, completions_app, (calls_silent logs),
      (completions_silent logs) by done.
    split_and!; lia.
  - rewrite !calls_app, !completions_app, (calls_silent logs), (completions_silent logs),
      calls_single, completions_single by done.
    split_and!; lia || done.
  - rewrite !calls_app, !completions_app, (calls_silent logs), (completions_silent logs),
      calls_pair, completions_pair by done.
    split_and!; try lia. destruct o; lia || done.
Qed.

Lemma process_results_counts self callback mfut results count env st :
  let run := process_results self callback mfut results count env st in
  completions (trace run.1) = completions (trace st) /\
  calls (trace st) <= calls (trace run.1) <= calls (trace st) + length results /\
  match run.2 with
  | Ok count' =>
      count' = (count + Z.of_nat (calls (trace run.1) - calls (trace st)))%Z
  | Err _ => True
  | Unfinished => False
  end.
Proof.
  revert count st. induction results as [|ent rest IH]; intros count st run;
    subst run.
  - cbn. split_and!; lia.
  - cbn [process_results length]. unfold bind.
    pose proof (process_result_counts self callback mfut ent count env st)
      as (Hc & Hn & Hr). cbn zeta in *.
    destruct (process_result self callback mfut ent count env st)
      as [st1 [count1|e|]]; cbn [fst snd] in *.
    2: { split_and!; [done|lia|lia|done]. }
    2: done.
    specialize (IH count1 st1). cbn zeta in IH.
    destruct IH as (Hc' & Hn' & Hr').
    destruct (process_results self callback mfut rest count1 env st1)
      as [st2 [count2|e|]]; cbn [fst snd] in *; split_and!; try lia; try done.
Qed.

(** X13. The result loop of the helper of [map_query].  For a batch of
    results and any behaviour of the collaborators, the requests made are
    a sequence of pairs, a call of the callback followed by the handing
    over of the value it returned (as a dependent when it is a Future, as
    a value otherwise), at most one pair per result, followed by one more
    call only if that call raised.  When the loop ends normally the count
    has grown by the number of pairs, that is, by the number of callback
    calls; the loop always ends. *)
Theorem results_reach_multifuture (self : ref) (callback : callable)
    (mfut : value) (results : list ref) (count : Z) (env : Env) (st : State) :
  let run := process_results self callback mfut results count env st in
  exists evs pairs tail,
    trace run.1 = trace st ++ evs /\
    requests_of evs =
      flat_map (fun p : value * value =>
                  [call_request callback p.1; route mfut p.2]) pairs ++ tail /\
    length pairs <= length results /\
    match run.2 with
    | Ok count' => tail = [] /\ count' = (count + Z.of_nat (length pairs))%Z
    | Err _ => tail = [] \/ exists seen, tail = [call_request callback seen]
    | Unfinished => False
    end.
Proof.
  revert count st. induction results as [|ent rest IH]; intros count st run;
    subst run.
  - exists [], [], []. cbn. rewrite app_nil_r. split_and!; auto with lia.
  - cbn [process_results length]. unfold bind.
    destruct (process_result_paths self callback mfut ent count env st)
      as (logs & Hpaths & Hlogs). cbn zeta in Hpaths.
    destruct (process_result self callback mfut ent count env st)
      as [st1 r]; cbn [fst snd] in *.
    destruct Hpaths
      as [(Htr & ->)|[(seen & e & Htr & ->)|(seen & val & o & Htr & ->)]].
    + destruct (IH count st1) as (evs & pairs & tail & Htr' & Hreq & Hlen & Hr).
      cbn zeta in *.
      exists (logs ++ evs), pairs, tail. split_and!.
      * by rewrite Htr', Htr, <- app_assoc.
      * by rewrite requests_of_app, Hlogs.
      * lia.
      * done.
    + exists (logs ++ [Interaction (call_request callback seen) (Exn e)]),
        [], [call_request callback seen].
      cbn [fst snd]. split_and!.
      * done.
      * by rewrite requests_of_app, Hlogs.
      * cbn. lia.
      * right. by exists seen.
    + destruct o as [x|e].
      * destruct (IH (count + 1)%Z st1)
          as (evs & pairs & tail & Htr' & Hreq & Hlen & Hr).
        cbn zeta in *.
        exists (logs ++
                [Interaction (call_request callback seen) (Val val);
                 Interaction (route mfut val) (Val x)] ++ evs),
          ((seen, val) :: pairs), tail.
        split_and!.
        -- rewrite Htr', Htr. by rewrite <- !app_assoc.
        -- rewrite !requests_of_app, Hlogs, Hreq. reflexivity.
        -- cbn. lia.
        -- destruct (process_results self callback mfut rest (count + 1) env st1)
             as [st2 [count2|e|]]; cbn [fst snd] in *; [|done|done].
           destruct Hr as [-> ->]. split; [done|]. cbn [length]. lia.
      * exists (logs ++
                [Interaction (call_request callback seen) (Val val);
                 Interaction (route mfut val) (Exn e)]),
          [(seen, val)], [].
        cbn [fst snd]. split_and!.
        -- done.
        -- by rewrite requests_of_app, Hlogs.
        -- cbn. lia.
        -- by left.
Qed.

Lemma completions_yield tr r o :
  completions (tr ++ [Interaction (yield_ r) o]) = completions tr.
Proof. rewrite completions_snoc. simpl. lia. Qed.

Lemma calls_yield tr r o :
  calls (tr ++ [Interaction (yield_ r) o]) = calls tr.
Proof. rewrite calls_snoc. simpl. lia. Qed.

Lemma helper_loop_protocol fuel self callback options mfut rpc count env st :
  let run := helper_loop fuel self callback options mfut rpc count env st in
  calls (trace st) <= calls (trace run.1) /\
  match run.2 with
  | Ok v =>
      v = VInt (count + Z.of_nat (calls (trace run.1) - calls (trace st))) /\
      completions (trace run.1) = completions (trace st) + 1 /\
      exists x,
        last (trace run.1) = Some (Interaction (mfut_complete mfut) (Val x))
  | Err e =>
      completions (trace run.1) = completions (trace st) \/
      (completions (trace run.1) = completions (trace st) + 1 /\
       last (trace run.1) = Some (Interaction (mfut_complete mfut) (Exn e)))
  | Unfinished => completions (trace run.1) = completions (trace st)
  end.
Proof.
  revert rpc count st.
  induction fuel as [|fuel IH]; intros rpc count st run; subst run.
  - cbn. split; [lia|done].
  - cbn [helper_loop]. destruct (bool_decide (rpc = VNone)).
    + run_steps.
      destruct (env _ _ _) as [w1 [x|e]]; unfold ret; cbn [fst snd trace].
      * rewrite calls_snoc, completions_snoc, last_snoc.
        cbn [is_call is_complete].
        split; [lia|]. split_and!; [f_equal; lia|lia|by eexists].
      * rewrite calls_snoc, completions_snoc, last_snoc.
        cbn [is_call is_complete].
        split; [lia|]. right. split; [lia|done].
    + rewrite bind_interact.
      destruct (env _ (yield_ rpc) _) as [w1 [batch|e]]; cbn [fst snd].
      2: { cbn [fst snd trace]. rewrite calls_yield, completions_yield.
           split; [lia|by left]. }
      set (st1 := mkState w1 _).
      assert (H1 : calls (trace st1) = calls (trace st) /\
                   completions (trace st1) = completions (trace st)).
      { subst st1. cbn [trace]. by rewrite calls_yield, completions_yield. }
      destruct H1 as [Hn1 Hc1].
      destruct batch as [| | | | | | | | |rs|];
        try (cbn [next_batch]; rewrite bind_raise; cbn [fst snd];
             split; [lia|by left]).
      cbn [next_batch batch_results]. rewrite bind_interact.
      destruct (env _ (next_batch_async _ _) _) as [w2 [rpc'|e]];
        cbn [fst snd].
      2: { subst st1. cbn [fst snd trace].
           rewrite calls_snoc, completions_snoc, calls_yield, completions_yield.
           cbn [is_call is_complete]. split; [lia|left; lia]. }
      set (st2 := mkState w2 _).
      assert (H2 : calls (trace st2) = calls (trace st) /\
                   completions (trace st2) = completions (trace st)).
      { subst st2. cbn [trace]. rewrite calls_snoc, completions_snoc.
        cbn [is_call is_complete]. lia. }
      destruct H2 as [Hn2 Hc2].
      rewrite bind_ret. unfold bind.
      pose proof (process_results_counts self callback mfut rs count env st2)
        as (Hc3 & Hn3 & Hr3). cbn zeta in *.
      destruct (process_results self callback mfut rs count env st2)
        as [st3 [count3|e|]]; cbn [fst snd] in *;
        [|split; [lia|left; lia]|done].
      specialize (IH rpc' count3 st3). cbn zeta in IH.
      destruct IH as [Hn4 Hr4]. split; [lia|].
      destruct (helper_loop fuel self callback options mfut rpc' count3 env st3)
        as [st4 [v|e|]]; cbn [fst snd] in *.
      * destruct Hr4 as (-> & Hc4 & Hlast). split_and!; [f_equal; lia|lia|done].
      * destruct Hr4 as [Hc4|[Hc4 Hlast]]; [left; lia|right; split; [lia|done]].
      * lia.
Qed.

(** X14. The helper of [map_query] completes the MultiFuture once, at
    the very end.  Whatever the collaborators do, [mfut.complete()] is
    requested at most once.  When the helper returns, that request is the
    last thing it did, it was made exactly once, and the value returned is
    the number of callback calls made.  When the helper raises, either
    [complete] was not requested at all (a wait, a callback or the
    MultiFuture failed before) or it is [complete] itself that raised. *)
Theorem helper_completes_once (fuel : nat) (self query : ref)
    (callback : callable) (options : option nat) (mfut : value) (env : Env)
    (st : State) :
  let run := helper fuel self query callback options mfut env st in
  completions (trace run.1) <= completions (trace st) + 1 /\
  match run.2 with
  | Ok v =>
      v = VInt (Z.of_nat (calls (trace run.1) - calls (trace st))) /\
      completions (trace run.1) = completions (trace st) + 1 /\
      exists x,
        last (trace run.1) = Some (Interaction (mfut_complete mfut) (Val x))
  | Err e =>
      completions (trace run.1) = completions (trace st) \/
      last (trace run.1) = Some (Interaction (mfut_complete mfut) (Exn e))
  | Unfinished => completions (trace run.1) = completions (trace st)
  end.
Proof.
  intros run. subst run. unfold helper. unfold the_context.
  rewrite bind_gets, bind_interact.
  destruct (env _ (query_run_async _ _ _) _) as [w1 [rpc|e]]; cbn [fst snd].
  2: { cbn [fst snd trace]. rewrite completions_snoc. cbn [is_complete].
       split; [lia|left; lia]. }
  set (st1 := mkState w1 _).
  assert (H1 : calls (trace st1) = calls (trace st) /\
               completions (trace st1) = completions (trace st)).
  { subst st1. cbn [trace]. rewrite calls_snoc, completions_snoc.
    cbn [is_call is_complete]. lia. }
  destruct H1 as [Hn1 Hc1].
  pose proof (helper_loop_protocol fuel self callback options mfut rpc 0 env st1)
    as [Hn Hr]. cbn zeta in *.
  destruct (helper_loop fuel self callback options mfut rpc 0 env st1)
    as [st2 [v|e|]]; cbn [fst snd] in *.
  - destruct Hr as (-> & Hc & Hlast). split; [lia|].
    split_and!; [f_equal; lia|lia|done].
  - destruct Hr as [Hc|[Hc Hlast]]; (split; [lia|]); [left; lia|by right].
  - split; lia.
Qed.

Lemma helper_completes_once_witness :
  let run := helper 3 0 0 (user_callable 0) None (VInt 0) env_query st_query in
  run.2 = Ok (VInt 1) /\
  requests_of (trace run.1) =
    [query_run_async 0 (Conn 0) None; yield_ (VRpc 0);
     next_batch_async (VBatch [5; 6]) None;
     call_user 0 (VEntity 4); mfut_process_value (VInt 0) (VInt 1);
     mfut_complete (VInt 0)].
Proof.
  intros run.
  pose proof (helper_completes_once 3 0 0 (user_callable 0) None (VInt 0)
                env_query st_query) as [_ H].
  fold run in H. split; vm_compute; reflexivity.
Defined.

(** ** Context.transaction: further properties *)

Lemma transaction_run self callback retry entity_group env st :
  transaction self callback retry entity_group env st =
    (flush_all self ;;
     attempts (Z.to_nat (1 + Z.max 0 retry)) self callback entity_group
       (transaction_app entity_group (world st))) env st.
Proof. unfold transaction, transaction_app. by destruct entity_group. Qed.

(** X15. [retry] below one.  For [retry <= 0] the source computes
    [range(1 + max(0, retry))], one iteration: [transaction] runs exactly
    as with [retry = 0], begins at most one transaction, and when the
    collaborators answer normally and the commit is rejected it fails with
    TransactionFailedError after that single attempt. *)
Theorem transaction_without_retry (self : ref) (callback : callable)
    (retry : Z) (entity_group : option Key) (env : Env) (st : State) :
  (retry <= 0)%Z ->
  let run := transaction self callback retry entity_group env st in
  run = transaction self callback 0 entity_group env st /\
  begins (trace run.1) <= begins (trace st) + 1 /\
  (answers_normally env -> calls_return_futures env -> commits_rejected env ->
   run.2 = Err could_not_commit /\
   begins (trace run.1) = begins (trace st) + 1).
Proof.
  intros Hretry run. subst run. rewrite !transaction_run.
  replace (Z.to_nat (1 + Z.max 0 retry)) with 1 by lia.
  change (Z.to_nat (1 + Z.max 0 0)) with 1.
  set (a := transaction_app entity_group (world st)).
  split_and!.
  - reflexivity.
  - pose proof (flush_all_begins self env st) as Hfl. unfold bind.
    destruct (flush_all self env st) as [st1 [[]|e|]]; cbn [fst] in *;
      try lia.
    pose proof (attempts_begins 1 self callback entity_group a env st1). lia.
  - intros Hn Hf Hr.
    destruct (flush_all_normal self env st Hn) as (st1 & pre & Hfl & Hpre).
    erewrite bind_Ok by exact Hfl.
    destruct (attempts_rejected 1 self callback entity_group a env st1 Hn Hf Hr)
      as (st' & evss & Hrun & _ & _ & _ & Hb).
    rewrite Hrun. cbn [fst snd]. split; [done|].
    pose proof (flush_all_begins self env st) as H.
    rewrite Hfl in H. cbn [fst] in H. lia.
Qed.

Lemma transaction_without_retry_witness :
  (transaction 0 (user_callable 0) (-5) None env_reject st_ctx).2
    = Err could_not_commit /\
  begins (trace (transaction 0 (user_callable 0) (-5) None env_reject st_ctx).1)
    = 1.
Proof.
  destruct (transaction_without_retry 0 (user_callable 0) (-5) None env_reject
              st_ctx ltac:(lia)) as (_ & _ & H).
  destruct (H env_reject_normal env_reject_futures env_reject_rejects)
    as [H1 H2].
  split; [exact H1|]. rewrite H2. vm_compute. reflexivity.
Defined.

Lemma begun_in_app a rs rs' :
  begun_in a rs -> begun_in a rs' -> begun_in a (rs ++ rs').
Proof. apply Forall_app_2. Qed.

Ltac not_a_begin :=
  let c := fresh in
  let a := fresh in
  let H := fresh in
  intros c a H; first [ discriminate H | by injection H ].

Lemma begun_in_call a callback arg rs :
  begun_in a rs -> begun_in a (call_request callback arg :: rs).
Proof. intros H. constructor; [|done]. destruct callback; not_a_begin. Qed.

(** Close a path of a run: its events, and the transactions they begin. *)
Ltac close_begun :=
  cbn [fst snd trace]; rewrite <- ?app_assoc; eexists;
  (split; [reflexivity|]);
  cbn [app requests_of]; unfold begun_in;
  repeat first [ apply Forall_nil_2
               | apply begun_in_call
               | apply Forall_cons_2; [not_a_begin|] ].

Lemma attempt_begun_in self callback entity_group a env st :
  let run := attempt self callback entity_group a env st in
  exists evs, trace run.1 = trace st ++ evs /\ begun_in a (requests_of evs).
Proof.
  intros run. subst run. unfold attempt. explore.
  all: close_begun.
Qed.

Lemma attempts_begun_in n self callback entity_group a env st :
  let run := attempts n self callback entity_group a env st in
  exists evs, trace run.1 = trace st ++ evs /\ begun_in a (requests_of evs).
Proof.
  revert st. induction n as [|n IH]; intros st run; subst run.
  - exists []. cbn. rewrite app_nil_r. split; [done|constructor].
  - cbn [attempts]. unfold bind.
    destruct (attempt_begun_in self callback entity_group a env st)
      as (evs & Htr & Hb). cbn zeta in *.
    destruct (attempt self callback entity_group a env st)
      as [st1 [[result|]|e|]]; cbn [fst snd] in *; eauto.
    destruct (IH st1) as (evs' & Htr' & Hb'). cbn zeta in *.
    exists (evs ++ evs'). split.
    + by rewrite Htr', Htr, <- app_assoc.
    + rewrite requests_of_app. by apply begun_in_app.
Qed.

Lemma flush_all_begun_in ctx a env st :
  let run := flush_all ctx env st in
  exists evs, trace run.1 = trace st ++ evs /\ begun_in a (requests_of evs).
Proof.
  intros run. subst run. unfold flush_all. explore.
  all: close_begun.
Qed.

(** X16. The application of a transaction.  Every transaction that a
    run of [transaction] begins is begun in the application of the entity
    group when one is given and in the default application otherwise,
    whatever the collaborators do.  If the flush of the batchers of [self]
    that comes first fails, [transaction] fails with that exception and
    begins no transaction. *)
Theorem transaction_uses_group_app (self : ref) (callback : callable)
    (retry : Z) (entity_group : option Key) (env : Env) (st : State) :
  let run := transaction self callback retry entity_group env st in
  (exists evs,
     trace run.1 = trace st ++ evs /\
     begun_in (transaction_app entity_group (world st)) (requests_of evs)) /\
  (forall st1 e,
     flush_all self env st = (st1, Err e) ->
     run = (st1, Err e) /\ begins (trace st1) = begins (trace st)).
Proof.
  intros run. subst run. rewrite transaction_run.
  set (a := transaction_app entity_group (world st)). split.
  - unfold bind.
    destruct (flush_all_begun_in self a env st) as (evs & Htr & Hb).
    cbn zeta in *.
    destruct (flush_all self env st) as [st1 [[]|e|]]; cbn [fst snd] in *;
      eauto.
    destruct (attempts_begun_in (Z.to_nat (1 + Z.max 0 retry)) self callback
                entity_group a env st1) as (evs' & Htr' & Hb').
    cbn zeta in *. exists (evs ++ evs'). split.
    + by rewrite Htr', Htr, <- app_assoc.
    + rewrite requests_of_app. by apply begun_in_app.
  - intros st1 e Hfl. erewrite bind_Err by exact Hfl. split; [done|].
    pose proof (flush_all_begins self env st) as H. by rewrite Hfl in H.
Qed.

Lemma transaction_uses_group_app_witness :
  let run :=
    transaction 0 (user_callable 0) 3 (Some (mkKey "other~app" []))
      env_reject st_ctx in
  begun_in (VStr "other~app") (requests_of (trace run.1)) /\
  begins (trace run.1) = 4.
Proof.
  intros run.
  destruct (transaction_uses_group_app 0 (user_callable 0) 3
              (Some (mkKey "other~app" [])) env_reject st_ctx)
    as [(evs & Htr & Hb) _].
  fold run in Htr. split.
  - rewrite Htr, requests_of_app. apply begun_in_app; [constructor|exact Hb].
  - vm_compute. reflexivity.
Defined.

(** Make the answer of the callback concrete on a path. *)
Ltac concrete_answers :=
  repeat match goal with
  | H : is_Future ?v = _ |- _ =>
      destruct v; cbn [is_Future] in H; try discriminate H; clear H
  end.

(** X17. Each attempt ends its transaction at most once.  In one run of
    the loop body of [transaction], whatever the collaborators do: if the
    callback returned a Future, exactly one of commit and rollback is
    requested; if the callback raised or returned something else (the
    assertion fails), neither is requested although a transaction has been
    begun.  A run that ends normally requested a commit and no rollback; a
    run that requested a rollback ends with an exception.  The run always
    ends. *)
Theorem attempt_ends_transaction_once (self : ref) (callback : callable)
    (entity_group : option Key) (app_id : value) (env : Env) (st : State) :
  let run := attempt self callback entity_group app_id env st in
  exists evs,
    trace run.1 = trace st ++ evs /\
    commits evs + rollbacks evs =
      (if existsb returned_future evs then 1 else 0) /\
    (forall r, run.2 = Ok r -> commits evs = 1 /\ rollbacks evs = 0) /\
    (rollbacks evs = 1 -> exists e, run.2 = Err e) /\
    run.2 <> Unfinished.
Proof.
  intros run. subst run. unfold attempt. destruct callback; explore.
  all: concrete_answers.
  all: cbn [fst snd trace]; rewrite <- ?app_assoc; eexists;
    (split; [reflexivity|]).
  all: vm_compute; split_and!;
    first [ reflexivity | discriminate | by eauto | by intros ? [=] ].
Qed.

(** The parent cache after a run of [transaction], in an environment that
    leaves it alone. *)
Lemma transaction_outcome self callback retry entity_group env st :
  respects self env -> self < next_id (world st) ->
  let run := transaction self callback retry entity_group env st in
  match run.2 with
  | Ok _ => merged_once self st run.1
  | Err _ => untouched self st run.1
  | Unfinished => False
  end.
Proof.
  intros Hr Hlt run. subst run. rewrite transaction_run.
  set (a := transaction_app entity_group (world st)).
  pose proof (flush_all_frame self self env st Hr Hlt) as (Hlt1 & Hu & Hfin).
  cbn zeta in *. unfold bind.
  destruct (flush_all self env st) as [st1 [[]|e|]]; cbn [fst snd] in *;
    try done.
  pose proof (attempts_frame (Z.to_nat (1 + Z.max 0 retry)) self callback
                entity_group a env st1 Hr Hlt1) as H. cbn zeta in H.
  destruct (attempts _ self callback entity_group a env st1)
    as [st2 [v|e|]]; cbn [fst snd] in *; try done.
  - destruct H as (tctx & pre & c & rpc & ok & Ht & Hok & Hup & Hne & Hm).
    destruct Hu as [Hc1 Hu1].
    exists tctx, pre, c, rpc, ok. split_and!; try done; congruence.
  - destruct H as [Hc2 Hu2]. destruct Hu as [Hc1 Hu1]. split; congruence.
Qed.

(** X18. What a committed transaction leaves in the parent cache.
    When [transaction] returns (the environment leaving the cache of
    [self] alone meanwhile), its last step merged the cache of the child
    context of the successful attempt: every key of the child cache now
    answers [get] on the parent at once with the child's value (the child
    wins over an older parent entry, and a None of the child hides the
    entity), and the entries of all other keys are as before. *)
Theorem committed_entries_visible (self : ref) (callback : callable)
    (retry : Z) (entity_group : option Key) (env : Env) (st st' : State)
    (v : value) :
  respects self env -> self < next_id (world st) ->
  transaction self callback retry entity_group env st = (st', Ok v) ->
  exists tctx,
    last (trace st') = Some (Observed (cache_update self tctx)) /\
    tctx <> self /\
    (forall k x,
       _cache (context (world st') tctx) !! k = Some x ->
       forall env', get self k env' st' = (st', Ok x)) /\
    (forall k,
       _cache (context (world st') tctx) !! k = None ->
       _cache (context (world st') self) !! k =
       _cache (context (world st) self) !! k).
Proof.
  intros Hr Hlt Hrun.
  pose proof (transaction_outcome self callback retry entity_group env st Hr Hlt)
    as H. cbn zeta in H. rewrite Hrun in H. cbn [fst snd] in H.
  destruct H as (tctx & pre & c & rpc & ok & Ht & Hok & Hup & Hne & Hm).
  exists tctx. split_and!.
  - rewrite Ht.
    change [Interaction (conn_call (call_commit c)) (Val rpc);
            Interaction (yield_ rpc) (Val ok);
            Observed (cache_update self tctx)]
      with ([Interaction (conn_call (call_commit c)) (Val rpc);
             Interaction (yield_ rpc) (Val ok)] ++
            [Observed (cache_update self tctx)]).
    rewrite app_assoc. apply last_snoc.
  - done.
  - intros k x Hk env'. apply get_hit. rewrite Hm.
    by apply lookup_union_Some_l.
  - intros k Hk. rewrite Hm. by apply lookup_union_r.
Qed.

Lemma committed_entries_visible_witness :
  let st' := (transaction 0 (user_callable 0) 3 None env_commit st_ctx).1 in
  get 0 (key_of "A") env0 st' = (st', Ok (VEntity 4)).
Proof.
  intros st'.
  assert (Hlt : 0 < next_id (world st_ctx)) by (vm_compute; lia).
  destruct (committed_entries_visible 0 (user_callable 0) 3 None env_commit
              st_ctx st' (VStr "done") env_commit_respects Hlt)
    as (tctx & Hlast & _ & Hhit & _).
  - vm_compute. reflexivity.
  - assert (Ht : tctx = 5).
    { vm_compute in Hlast. by injection Hlast. }
    subst tctx. apply Hhit. vm_compute. reflexivity.
Defined.

(** ** Context.get_or_insert and its transaction function *)

(** X19. [get_or_insert] with a non-empty name.  The task first looks
    the key up with [self.get].  If the lookup fails, the exception is
    passed on.  If it finds an entity, that entity is returned and no
    transaction is started.  Only if it finds None does the task start one
    transaction, for the function [txn] on the same key with the default
    retry count and no entity group; the outcome of waiting for that
    transaction is the outcome of the task. *)
Theorem get_or_insert_finds_or_inserts (self : ref) (model_class s : string)
    (parent : option Key) (kwds : list (string * value)) (env : Env)
    (st : State) :
  s <> "" ->
  let key := child_key (world st) parent model_class s in
  let lookup := start_task (task_get self key) in
  let insert :=
    start_task (task_transaction self (txn_closure key model_class kwds) 3 None) in
  let run := get_or_insert self model_class (VStr s) parent kwds env st in
  exists evs,
    trace run.1 = trace st ++ evs /\
    ((exists e, evs = [Interaction lookup (Exn e)] /\ run.2 = Err e) \/
     (exists fut e,
        evs = [Interaction lookup (Val fut); Interaction (yield_ fut) (Exn e)] /\
        run.2 = Err e) \/
     (exists fut ent,
        ent <> VNone /\
        evs = [Interaction lookup (Val fut);
               Interaction (yield_ fut) (Val ent)] /\
        run.2 = Ok ent) \/
     (exists fut o rest,
        evs = Interaction lookup (Val fut) ::
              Interaction (yield_ fut) (Val VNone) ::
              Interaction insert o :: rest /\
        match o with
        | Exn e => rest = [] /\ run.2 = Err e
        | Val fut' =>
            exists o',
              rest = [Interaction (yield_ fut') o'] /\
              run.2 = match o' with Val v => Ok v | Exn e => Err e end
        end)).
Proof.
  intros Hs key lookup insert run. subst key lookup insert run.
  unfold get_or_insert, child_key.
  assert (Hok : is_basestring (VStr s) && truthy (VStr s) = true).
  { simpl. destruct s; [done|reflexivity]. }
  rewrite Hok. unfold assert_. rewrite bind_ret, bind_gets.
  cbn [name_part]. set (key := VKey _).
  rewrite bind_interact.
  destruct (env _ (start_task (task_get self key)) _) as [w1 [fut|e]];
    cbn [fst snd trace].
  2: { eexists. split; [reflexivity|]. left. by exists e. }
  rewrite bind_interact.
  destruct (env _ (yield_ fut) _) as [w2 [ent|e]]; cbn [fst snd trace].
  2: { eexists. split; [by rewrite <- app_assoc|]. right; left.
       by exists fut, e. }
  case_bool_decide as Hent.
  - subst ent. rewrite bind_interact.
    destruct (env _ (start_task (task_transaction _ _ _ _)) _)
      as [w3 [fut'|e]]; cbn [fst snd trace].
    + rewrite bind_interact.
      destruct (env _ (yield_ fut') _) as [w4 [v|e]]; cbn [fst snd trace];
        unfold ret; cbn [fst snd trace].
      * eexists. split; [by rewrite <- !app_assoc|]. right; right; right.
        eexists fut, (Val fut'), _. split; [reflexivity|].
        by exists (Val v).
      * eexists. split; [by rewrite <- !app_assoc|]. right; right; right.
        eexists fut, (Val fut'), _. split; [reflexivity|].
        by exists (Exn e).
    + eexists. split; [by rewrite <- !app_assoc|]. right; right; right.
      by exists fut, (Exn e), [].
  - unfold ret. cbn [fst snd trace].
    eexists. split; [by rewrite <- app_assoc|]. right; right; left.
    by exists fut, ent.
Qed.

Lemma get_or_insert_finds_or_inserts_witness :
  (get_or_insert 0 "Kind" (VStr "A") None [] env_live st_ctx).2
    = Ok (VEntity 7) /\
  requests_of
    (trace (get_or_insert 0 "Kind" (VStr "A") None [] env_live st_ctx).1) =
    [start_task (task_get 0 (key_of "A")); yield_ (VEntity 7)] /\
  requests_of
    (trace (get_or_insert 0 "Kind" (VStr "A") None [("x", VInt 1)] env_absent
              st_ctx).1) =
    [start_task (task_get 0 (key_of "A")); yield_ (VFuture 1);
     start_task
       (task_transaction 0 (txn_closure (key_of "A") "Kind" [("x", VInt 1)])
          3 None);
     yield_ (VFuture 3)].
Proof.
  destruct (get_or_insert_finds_or_inserts 0 "Kind" "A" None [] env_live st_ctx)
    as (evs & Htr & _); [discriminate|].
  split_and!; vm_compute; reflexivity.
Defined.

Lemma bind_new_Model {B} model_class kwds (k : ref -> M B) env st :
  bind (new_Model model_class kwds) k env st =
    k (next_id (world st)) env
      (mkState
         (set_entity (next_id (world st)) (mkEntity VNone model_class kwds)
            (set_next_id (S (next_id (world st))) (world st)))
         (trace st)).
Proof. reflexivity. Qed.


Lemma env_absent_passive : passive env_absent.
Proof. by intros tr r w. Qed.

